(** * ptree: the process-tree system call (kernel/ptree.c)

    A shallow embedding of [sys_ptree] and of the pointer-climbing walk
    [dfs_add] over the kernel's [task_struct] objects, together with the
    properties of the walk, of the records it stores and of the error
    paths of the system call. *)

From Stdlib Require Import ZArith String Lia.
From stdpp Require Import base option list.

Local Open Scope Z_scope.

(** ** Outcomes of kernel code

    A run either returns, or performs an operation C leaves undefined (a
    list entry computed from a list head that is not the expected member
    of a task, an access through a pointer to no task, a store outside the
    allocated buffer, an overflowing [int]), or exhausts the budget of
    loop iterations it is given. *)

Inductive outcome (A : Type) : Type :=
  | Ret (a : A)
  | Fault
  | Timeout.

Arguments Ret {A} a.
Arguments Fault {A}.
Arguments Timeout {A}.

Definition bind {A B : Type} (c : outcome A) (k : A -> outcome B) : outcome B :=
  match c with
  | Ret a => k a
  | Fault => Fault
  | Timeout => Timeout
  end.

Declare Scope outcome_scope.
Delimit Scope outcome_scope with outcome.
Notation "'let*' x ':=' c 'in' k" := (bind c (fun x => k))
  (at level 10, x name, c at level 200, k at level 200) : outcome_scope.
Local Open Scope outcome_scope.

(** ** The C [int] *)

Definition INT_MAX : Z := 2147483647.
Definition INT_MIN : Z := -2147483648.

(** [a + b] on [int]: a sum outside the range of [int] is undefined in
    C, and no run goes on from it. The counters of ptree.c count tasks
    and stay far below [INT_MAX]. *)
Definition int_add (a b : Z) : outcome Z :=
  if bool_decide (INT_MIN <= a + b <= INT_MAX) then Ret (a + b) else Fault.

(** An [unsigned long] stored into an [int], as in
    [rval = copy_to_user(...)], keeps its low 32 bits. *)
Definition to_int (x : Z) : Z := (x + 2147483648) mod 4294967296 - 2147483648.

(** ** The C [long]

    The target ptree.c is compiled for: the number of bits of a [long],
    32 where [int], [long] and pointers have 32 bits (ILP32), 64 where
    [long] and pointers have 64 (LP64). *)
Class target : Type := { LONG_BIT : Z }.

(** A [uid_t], an [unsigned int], converted to [long], as in
    [(long) tsk->real_cred->uid]: the value itself where the range of
    [long] holds it, as it holds every [uid_t] where [long] has 64 bits;
    otherwise the [long] with the same low bits, so that with a [long] of
    32 bits a uid of [2^31] and above is stored as a negative number. *)
Definition to_long `{target} (x : Z) : Z :=
  (x + 2 ^ (LONG_BIT - 1)) mod 2 ^ LONG_BIT - 2 ^ (LONG_BIT - 1).

(** ** Constants and macros of ptree.c *)

Definition EXTRA_SLOTS : Z := 15.
Definition MIN (a b : Z) : Z := if a <? b then a else b.

(** Modelled from the spec: the error codes of asm-generic/errno-base.h,
    which is not among the sources; [ENOMEM] is the spec's
    ResourceExhausted, [EFAULT] its TransferFault, [EINVAL] its
    InvalidArgument. *)
Definition ENOMEM : Z := 12.
Definition EFAULT : Z := 14.
Definition EINVAL : Z := 22.

(** ** Records handed to the caller *)

(** Modelled from the spec: [struct prinfo] of linux/prinfo.h, which is
    not among the sources; the SnapshotRecord of the spec, with the fields
    [store_node] assigns. *)
Record prinfo : Type := {
  parent_pid : Z;
  pid : Z;
  first_child_pid : Z;
  next_sibling_pid : Z;
  state : Z;
  uid : Z;
  comm : string
}.

(** The kernel buffer: one slot per allocated [struct prinfo], [None]
    while nothing has been stored in it. *)
Abbreviation kbuf := (list (option prinfo)) (only parsing).

Section Tasks.

(** Addresses of [task_struct] objects. *)
Context `{target} {task_ptr : Type} `{EqDecision task_ptr}.

(** ** Kernel objects *)

(** Modelled from the spec: the structural pointers of a node (spec 3)
    as the kernel keeps them; [struct list_head] and [struct task_struct]
    are declared in headers that are not among the sources. A task has
    two list heads the walk uses: [children], the head of the list of its
    children, and [sibling], its link in the list of its parent's
    children. *)
Inductive member : Type := children_of | sibling_of.

#[global] Instance member_eq_dec : EqDecision member.
Proof. solve_decision. Defined.

(** The address of a [struct list_head]: [&tsk->children] or
    [&tsk->sibling] of some task. *)
Record list_ptr : Type := ListPtr { lp_task : task_ptr; lp_member : member }.

#[global] Instance list_ptr_eq_dec : EqDecision list_ptr.
Proof. solve_decision. Defined.

Record list_head : Type := { next : list_ptr; prev : list_ptr }.

Record task_struct : Type := {
  task_pid : Z;            (* what task_pid_nr reads *)
  task_state : Z;          (* tsk->state *)
  task_uid : Z;            (* tsk->real_cred->uid, a uid_t *)
  task_comm : string;      (* what get_task_comm copies *)
  real_parent : task_ptr;
  parent : task_ptr;
  children : list_head;
  sibling : list_head
}.

(** Kernel memory as the walk sees it: the task stored at an address. *)
Definition memory : Type := task_ptr -> option task_struct.

Variable init_task : task_ptr.

Section Walk.

Variable mem : memory.

Definition load (tsk : task_ptr) : outcome task_struct :=
  match mem tsk with
  | Some t => Ret t
  | None => Fault
  end.

Definition load_list (l : list_ptr) : outcome list_head :=
  let* t := load (lp_task l) in
  Ret (match lp_member l with
       | children_of => children t
       | sibling_of => sibling t
       end).

(** *** include/linux/list.h *)

(** Modelled from the spec: the list macros of include/linux/list.h,
    which is not among the sources; they read the structural pointers of
    the node accessor (spec 4.1).
    [list_empty(head)]: [head->next == head]. *)
Definition list_empty (head : list_ptr) : outcome bool :=
  let* h := load_list head in
  Ret (bool_decide (next h = head)).

(** Modelled from the spec: [list_is_last(list, head)] of list.h:
    [list->next == head]. *)
Definition list_is_last (list head : list_ptr) : outcome bool :=
  let* l := load_list list in
  Ret (bool_decide (next l = head)).

(** Modelled from the spec: [list_entry(ptr, struct task_struct, m)] of
    list.h, that is [container_of]: the task whose member [m] lies at
    [ptr]. When [ptr] is the other member of a task, the address computed
    is that of no task. *)
Definition list_entry (ptr : list_ptr) (m : member) : outcome task_ptr :=
  if bool_decide (lp_member ptr = m) then Ret (lp_task ptr) else Fault.

(** Modelled from the spec: [list_first_entry(ptr, struct task_struct,
    m)] of list.h: [list_entry((ptr)->next, struct task_struct, m)]. *)
Definition list_first_entry (ptr : list_ptr) (m : member) : outcome task_ptr :=
  let* h := load_list ptr in
  list_entry (next h) m.

(** Modelled from the spec: [task_pid_nr] of linux/sched.h, not among
    the sources: the id of the node (spec 3). *)
Definition task_pid_nr (tsk : task_ptr) : outcome Z :=
  let* t := load tsk in
  Ret (task_pid t).

(** *** Helpers of ptree.c *)

Definition get_first_list_head (tsk : task_ptr) : outcome list_ptr :=
  let* t := load tsk in
  Ret (ListPtr (parent t) children_of).

Definition get_ppid (tsk : task_ptr) : outcome Z :=
  let* t := load tsk in
  task_pid_nr (real_parent t).

Definition get_youngest_child_pid (tsk : task_ptr) : outcome Z :=
  let* e := list_empty (ListPtr tsk children_of) in
  if e : bool then Ret 0
  else
    let* h := load_list (ListPtr tsk children_of) in
    let* tsk' := list_entry (prev h) sibling_of in
    task_pid_nr tsk'.

Definition get_next_sibling_pid (tsk : task_ptr) : outcome Z :=
  let* t := load tsk in
  let* l := list_is_last (ListPtr tsk sibling_of)
                     (ListPtr (real_parent t) children_of) in
  if l : bool then Ret 0
  else
    let* h := load_list (ListPtr tsk sibling_of) in
    let* tsk' := list_entry (next h) sibling_of in
    task_pid_nr tsk'.

Definition store_node (tsk : task_ptr) : outcome prinfo :=
  let* ppid := get_ppid tsk in
  let* p := task_pid_nr tsk in
  let* fc := get_youngest_child_pid tsk in
  let* ns := get_next_sibling_pid tsk in
  let* t := load tsk in
  Ret {| parent_pid := ppid;
         pid := p;
         first_child_pid := fc;
         next_sibling_pid := ns;
         state := task_state t;
         uid := to_long (task_uid t);
         comm := task_comm t |}.

(** *** dfs_add *)

(** [store_node(kbuf + i, tsk)]. *)
Definition store_at (buf : kbuf) (i : Z) (tsk : task_ptr) : outcome kbuf :=
  let* r := store_node tsk in
  if bool_decide (0 <= i < Z.of_nat (length buf))
  then Ret (<[Z.to_nat i := Some r]> buf)
  else Fault.

(** The inner loop:
    [while (list_is_last(&cur->sibling, list) && cur != &init_task)
       cur = cur->real_parent;]
    with [list] as computed before the loop. *)
Fixpoint climb (budget : nat) (list : list_ptr) (cur : task_ptr)
  : outcome task_ptr :=
  match budget with
  | O => Timeout
  | S budget' =>
      let* l := list_is_last (ListPtr cur sibling_of) list in
      if l && negb (bool_decide (cur = init_task))
      then let* t := load cur in climb budget' list (real_parent t)
      else Ret cur
  end.

(** One pass through the body of [while (1)] after [iterations++]:
    the task to visit next, or [None] at [break]. *)
Definition dfs_next (budget : nat) (cur : task_ptr)
  : outcome (option task_ptr) :=
  let* e := list_empty (ListPtr cur children_of) in
  if negb e
  then let* c := list_first_entry (ListPtr cur children_of) sibling_of in
       Ret (Some c)
  else
    let* list := get_first_list_head cur in
    let* l := list_is_last (ListPtr cur sibling_of) list in
    if negb l
    then let* c := list_first_entry (ListPtr cur sibling_of) sibling_of in
         Ret (Some c)
    else
      let* t := load cur in
      let cur := real_parent t in
      let* list := get_first_list_head cur in
      let* cur := climb budget list cur in
      let* cur := list_first_entry (ListPtr cur sibling_of) sibling_of in
      if bool_decide (cur = init_task) then Ret None else Ret (Some cur).

(** The [while (1)] loop, from the state [(kbuf, iterations, cur)]. *)
Fixpoint dfs_loop (budget fuel : nat) (knr : Z) (buf : kbuf)
    (iterations : Z) (cur : task_ptr) : outcome (kbuf * Z) :=
  match fuel with
  | O => Timeout
  | S fuel' =>
      let* buf := (if iterations <? knr then store_at buf iterations cur
               else Ret buf) in
      let* iterations := int_add iterations 1 in
      let* nxt := dfs_next budget cur in
      match nxt with
      | Some cur => dfs_loop budget fuel' knr buf iterations cur
      | None => Ret (buf, iterations)
      end
  end.

(** [dfs_add(kbuf, &knr)]: the buffer, the final [*knr] and the value
    returned. Each loop may run [fuel] times. *)
Definition dfs_add (fuel : nat) (buf : kbuf) (knr : Z)
  : outcome (kbuf * Z * Z) :=
  let* r := dfs_loop fuel fuel knr buf 0 init_task in
  let '(buf, iterations) := r in
  Ret (buf, (if iterations <? knr then iterations else knr), iterations).

(** The tasks the [while (1)] loop passes from [cur] on, in order: the
    loop without its buffer and its counter. *)
Fixpoint visits (budget fuel : nat) (cur : task_ptr) : outcome (list task_ptr) :=
  match fuel with
  | O => Timeout
  | S fuel' =>
      let* nxt := dfs_next budget cur in
      match nxt with
      | Some cur' =>
          let* rest := visits budget fuel' cur' in
          Ret (cur :: rest)
      | None => Ret [cur]
      end
  end.

End Walk.

End Tasks.

Arguments memory task_ptr : clear implicits.
Arguments list_ptr task_ptr : clear implicits.
Arguments list_head task_ptr : clear implicits.
Arguments task_struct task_ptr : clear implicits.

(** ** The system call *)

Section Syscall.

Context `{target} {task_ptr : Type} `{EqDecision task_ptr}.

Variable init_task : task_ptr.

(** What the kernel's task lists hold while [tasklist_lock] is
    read-held: the tasks in memory, and the tasks the macro
    [for_each_process], which is not among the sources, yields, in its
    order. *)
Record kernel : Type := {
  tasks : memory task_ptr;
  for_each_process : list task_ptr
}.

(** The loop [for_each_process(cur) ++count;] over the tasks left. *)
Fixpoint count_processes (procs : list task_ptr) (count : Z) : outcome Z :=
  match procs with
  | [] => Ret count
  | _ :: procs' =>
      let* count := int_add count 1 in
      count_processes procs' count
  end.

Definition get_num_of_processes (k : kernel) : outcome Z :=
  count_processes (for_each_process k) 0.

(** The caller's [int] at [nr]: the value a read finds ([None] when the
    read faults) and whether a store succeeds. *)
Record user_int : Type := {
  ui_value : option Z;
  ui_writable : bool
}.

(** The caller's buffer at [buf]: how many bytes from its start can be
    written. *)
Record user_buf : Type := {
  ub_writable : Z
}.

(** What surrounds one call: the size of [struct prinfo], whether
    [kmalloc] can serve a request of so many bytes, and the task lists
    during the first and the second read-locked section. *)
Record system : Type := {
  sizeof_prinfo : Z;
  kmalloc_ok : Z -> bool;
  at_probe : kernel;
  at_walk : kernel
}.

(** Modelled from the spec: the transport of the spec (6), the kernel's
    user-access primitives, which are not among the sources.
    [get_user(knr, nr)]: the value read, or [None] for [-EFAULT]. *)
Definition get_user (nr : user_int) : option Z := ui_value nr.

(** Modelled from the spec: [put_user(x, nr)] of the transport: [0], or
    [-EFAULT] with nothing stored. *)
Definition put_user (nr : user_int) : Z :=
  if ui_writable nr then 0 else - EFAULT.

(** Modelled from the spec: [copy_to_user(buf, kbuf, len)] of the
    transport: the number of bytes that could not be copied, here those
    past the writable part of the caller's buffer. *)
Definition copy_to_user (buf : user_buf) (len : Z) : Z :=
  len - Z.min len (Z.max 0 (ub_writable buf)).

(** Modelled from the spec: buffer allocation (spec 4.3, step 4),
    [kmalloc_array(n, size, GFP_KERNEL)] of linux/slab.h, with [n] read as
    a [size_t]: a negative [int] is a count no allocation can serve; the
    slots of a new buffer hold nothing yet. *)
Definition kmalloc_array (sys : system) (n size : Z) : option kbuf :=
  if (0 <=? n) && kmalloc_ok sys (n * size)
  then Some (replicate (Z.to_nat n) None)
  else None.

(** What one call leaves behind. *)
Record result : Type := {
  retval : Z;
  requested : option Z;   (* the count passed to kmalloc_array, if called *)
  buffer : option kbuf;   (* the kernel buffer, if one was allocated *)
  walked : bool;          (* dfs_add ran *)
  freed : bool;           (* kfree(kbuf) ran *)
  copied : kbuf;          (* the slots that reached the caller's buffer *)
  nr_stored : option Z    (* the value stored in *nr, if one was *)
}.

(** The paths through the label [error]. *)
Definition error (errno : Z) (req : option Z) : result :=
  {| retval := errno; requested := req; buffer := None; walked := false;
     freed := false; copied := []; nr_stored := None |}.

Definition sys_ptree (fuel : nat) (sys : system)
    (buf : option user_buf) (nr : option user_int) : outcome result :=
  match buf, nr with
  | Some ubuf, Some unr =>
      match get_user unr with
      | None => Ret (error (- EFAULT) None)
      | Some knr =>
          if knr <? 1 then Ret (error (- EINVAL) None)
          else
            let* nproc := get_num_of_processes (at_probe sys) in
            let* slots := int_add nproc EXTRA_SLOTS in
            let kslots := MIN slots knr in
            match kmalloc_array sys kslots (sizeof_prinfo sys) with
            | None => Ret (error (- ENOMEM) (Some kslots))
            | Some kbuf0 =>
                let* r := dfs_add init_task (tasks (at_walk sys)) fuel
                                  kbuf0 kslots in
                let '(kbuf1, kslots1, nproc1) := r in
                let len := kslots1 * sizeof_prinfo sys in
                let left := copy_to_user ubuf len in
                let out :=
                  take (Z.to_nat ((len - left) / sizeof_prinfo sys)) kbuf1 in
                let rval := to_int left in
                if rval <? 0
                then Ret {| retval := - EFAULT; requested := Some kslots;
                            buffer := Some kbuf1; walked := true;
                            freed := true; copied := out;
                            nr_stored := None |}
                else if put_user unr <? 0
                then Ret {| retval := - EFAULT; requested := Some kslots;
                            buffer := Some kbuf1; walked := true;
                            freed := true; copied := out;
                            nr_stored := None |}
                else Ret {| retval := nproc1; requested := Some kslots;
                            buffer := Some kbuf1; walked := true;
                            freed := true; copied := out;
                            nr_stored := Some kslots1 |}
            end
      end
  | _, _ => Ret (error (- EINVAL) None)
  end.

End Syscall.

Arguments kernel task_ptr : clear implicits.
Arguments system task_ptr : clear implicits.

(** ** Process trees and their image in kernel memory *)

(** What a task shows of itself. *)
Record task_info : Type := {
  info_pid : Z;
  info_state : Z;
  info_uid : Z;      (* a uid_t: 0 <= info_uid < 2^32 *)
  info_comm : string
}.

#[local] Unset Elimination Schemes.

(** A process tree: a task and its children, eldest first. *)
Inductive tree : Type := Node (info : task_info) (kids : list tree).

#[local] Set Elimination Schemes.

Definition info_of (t : tree) : task_info := let 'Node i _ := t in i.
Definition kids_of (t : tree) : list tree := let 'Node _ ks := t in ks.

(** A task is addressed by its position: the indices of the children
    taken from the root, innermost first; [[]] is [init_task]. *)
Abbreviation path := (list nat) (only parsing).

Fixpoint subtree (t : tree) (p : path) : option tree :=
  match p with
  | [] => Some t
  | i :: q =>
      match subtree t q with
      | Some s => kids_of s !! i
      | None => None
      end
  end.

(** The number of children of the task at [p]. *)
Definition nkids (t : tree) (p : path) : nat :=
  match subtree t p with
  | Some s => length (kids_of s)
  | None => O
  end.

(** Modelled from the spec: the registry of live tasks (spec 3), kept by
    kernel code that is not among the sources. The [children] head of the
    task at [p] with [n] children: an empty head points to itself, as
    [INIT_LIST_HEAD] leaves it; otherwise [next] is the [sibling] member
    of the eldest child and [prev] that of the youngest, as
    [list_add_tail] links a new child at the tail. *)
Definition children_head (p : path) (n : nat) : list_head path :=
  match n with
  | O => {| next := ListPtr p children_of; prev := ListPtr p children_of |}
  | S n' => {| next := ListPtr (O :: p) sibling_of;
               prev := ListPtr (n' :: p) sibling_of |}
  end.

(** Modelled from the spec: the registry of live tasks. The [sibling]
    member of the task at [p], linked into the [children] list of its
    parent: [next] is the next younger sibling, or the parent's head after
    the youngest. That of [init_task], the root sentinel, is an empty head
    of its own. *)
Definition sibling_link (t : tree) (p : path) : list_head path :=
  match p with
  | [] => {| next := ListPtr [] sibling_of; prev := ListPtr [] sibling_of |}
  | i :: q =>
      {| next := if bool_decide (S i < nkids t q)%nat
                 then ListPtr (S i :: q) sibling_of
                 else ListPtr q children_of;
         prev := match i with
                 | O => ListPtr q children_of
                 | S i' => ListPtr (i' :: q) sibling_of
                 end |}
  end.

(** Modelled from the spec: the registry of live tasks holding the tree
    [t] (every node but the root has one parent, spec 3). The task stored
    at [p]; [init_task] is its own parent. *)
Definition image (t : tree) : memory path := fun p =>
  match subtree t p with
  | None => None
  | Some s =>
      Some {| task_pid := info_pid (info_of s);
              task_state := info_state (info_of s);
              task_uid := info_uid (info_of s);
              task_comm := info_comm (info_of s);
              real_parent := tail p;
              parent := tail p;
              children := children_head p (length (kids_of s));
              sibling := sibling_link t p |}
  end.

(** The tasks of a tree in depth-first pre-order, children eldest first. *)
Fixpoint preorder (t : tree) (p : path) : list path :=
  let 'Node _ ks := t in
  p :: (fix go (ks : list tree) (i : nat) : list path :=
          match ks with
          | [] => []
          | k :: ks' => preorder k (i :: p) ++ go ks' (S i)
          end) ks O.

(** The children of [p] from index [i] on, with their descendants,
    in pre-order. *)
Fixpoint preorder_kids (ks : list tree) (p : path) (i : nat) : list path :=
  match ks with
  | [] => []
  | k :: ks' => preorder k (i :: p) ++ preorder_kids ks' p (S i)
  end.

Definition node_count (t : tree) : nat := length (preorder t []).

(** A static system: the task lists of [t] in both locked sections;
    [for_each_process] starts after [init_task]. *)
Definition static_kernel (t : tree) : kernel path :=
  {| tasks := image t; for_each_process := tail (preorder t []) |}.

Definition static_system (t : tree) (size : Z) (ok : Z -> bool) : system path :=
  {| sizeof_prinfo := size; kmalloc_ok := ok;
     at_probe := static_kernel t; at_walk := static_kernel t |}.

(** The pid of the task at [p], [0] where there is none. *)
Definition pid_at (t : tree) (p : path) : Z :=
  match subtree t p with
  | Some s => info_pid (info_of s)
  | None => 0
  end.

(** The record of the task at [p], read off the tree: the youngest child
    is the last of the children, the next sibling the next younger one,
    the owner the task's uid as a [long]. *)
Definition record_of `{target} (t : tree) (p : path) : prinfo :=
  {| parent_pid := pid_at t (tail p);
     pid := pid_at t p;
     first_child_pid :=
       match subtree t p with
       | Some s =>
           match last (kids_of s) with
           | Some y => info_pid (info_of y)
           | None => 0
           end
       | None => 0
       end;
     next_sibling_pid :=
       match p with
       | [] => pid_at t []
       | i :: q => if bool_decide (S i < nkids t q)%nat
                   then pid_at t (S i :: q) else 0
       end;
     state := match subtree t p with Some s => info_state (info_of s) | None => 0 end;
     uid := match subtree t p with
            | Some s => to_long (info_uid (info_of s))
            | None => 0
            end;
     comm := match subtree t p with Some s => info_comm (info_of s) | None => EmptyString end |}.

(** Where the walk is to go once the task at [p] and its descendants are
    done: to the next sibling of the nearest task, from [p] upwards, that
    has one; nowhere when there is none. *)
Fixpoint after (t : tree) (p : path) : option path :=
  match p with
  | [] => None
  | i :: q =>
      if bool_decide (S i < nkids t q)%nat then Some (S i :: q) else after t q
  end.

(** The pre-order successor of the task at [p]. *)
Definition successor (t : tree) (p : path) : option path :=
  if bool_decide (0 < nkids t p)%nat then Some (O :: p) else after t p.

(** [l] is a chain of successors that ends with a task whose successor
    is [e]. *)
Fixpoint follows (succ : path -> option path) (l : list path)
    (e : option path) : Prop :=
  match l with
  | [] => False
  | x :: l' =>
      match l' with
      | [] => succ x = e
      | y :: _ => succ x = Some y /\ follows succ l' e
      end
  end.

(** The task at [p] is the youngest child of its parent. *)
Definition youngest (t : tree) (p : path) : bool :=
  match p with
  | [] => false
  | i :: q => negb (bool_decide (S i < nkids t q)%nat)
  end.

(** The task at [p], its parent and its grandparent are each the youngest
    child of their parent. *)
Definition deep_tail (t : tree) (p : path) : bool :=
  match p with
  | _ :: (_ :: (_ :: _) as g) as q => youngest t p && youngest t q && youngest t g
  | _ => false
  end.

(** The number of tasks on the way from [t] down its youngest children:
    to its youngest child, to that child's youngest child, and so on. *)
Fixpoint tail_depth (t : tree) : nat :=
  let 'Node _ ks := t in
  (fix go (ks : list tree) : nat :=
     match ks with
     | [] => O
     | [k] => S (tail_depth k)
     | _ :: ks' => go ks'
     end) ks.

(** No task of [t] has a youngest child whose youngest child has
    children of its own. *)
Fixpoint shallow_tails (t : tree) : bool :=
  let 'Node _ ks := t in
  (tail_depth t <=? 2)%nat && forallb shallow_tails ks.

(** The slots of a buffer below index [n] hold a record, the others do
    not. *)
Definition filled (buf : kbuf) (n : Z) : Prop :=
  forall (i : nat) (o : option prinfo),
    buf !! i = Some o -> (is_Some o <-> Z.of_nat i < n).

(** A buffer of [n] slots of which the first hold the first [k] of the
    records [recs]. *)
Definition buffer_with (n k : nat) (recs : list prinfo) : kbuf :=
  map Some (take k recs) ++ replicate (n - length (take k recs)) None.

(** ** Sample trees *)

Definition task (n : Z) : task_info :=
  {| info_pid := n; info_state := 0; info_uid := 0; info_comm := EmptyString |}.

(** [R] with the children [A] (eldest) and [B]; [A] has the child [C]. *)
Definition scenario : tree :=
  Node (task 0) [Node (task 1) [Node (task 3) []]; Node (task 2) []].

(** [R] with the two childless children [A] and [B]. *)
Definition two_children : tree :=
  Node (task 0) [Node (task 1) []; Node (task 2) []].

(** A login session: the root with the children [init] and [kthreadd];
    [init] has the only child [sshd], [sshd] the only child [bash], and
    [bash] the only child [ptree], the caller. *)
Definition session : tree :=
  Node (task 0)
    [Node (task 1) [Node (task 3) [Node (task 4) [Node (task 5) []]]];
     Node (task 2) []].

(** [R] with the childless child [A], a task of the uid 3000000000. *)
Definition owned : tree :=
  Node (task 0)
    [Node {| info_pid := 1; info_state := 0; info_uid := 3000000000;
             info_comm := EmptyString |} []].

(** The image of [two_children] once [A] traces [B]: the [parent] of [B]
    is [A]; its [real_parent] and its place among the children of [R] are
    as before. *)
Definition traced : memory path := fun p =>
  match image two_children p with
  | Some tk =>
      Some (if bool_decide (p = [1%nat])
            then {| task_pid := task_pid tk; task_state := task_state tk;
                    task_uid := task_uid tk; task_comm := task_comm tk;
                    real_parent := real_parent tk; parent := [O];
                    children := children tk; sibling := sibling tk |}
            else tk)
  | None => None
  end.

(** Every task of [l] comes after its parent, which is in [seen] or
    earlier in [l]. *)
Fixpoint parents_first (seen l : list path) : Prop :=
  match l with
  | [] => True
  | x :: l' => tail x ∈ seen /\ parents_first (x :: seen) l'
  end.

(** ** Sample callers *)

(** The target of the samples: [int], [long] and pointers of 32 bits,
    on which [struct prinfo], four [pid_t], two [long] and 64 [char],
    takes 88 bytes. *)
#[global] Instance ilp32 : target := {| LONG_BIT := 32 |}.

(** A machine of this target on which [kmalloc] serves every request,
    with the task lists of [t] throughout. *)
Definition machine (t : tree) : system path :=
  static_system t 88 (fun _ => true).

(** A readable and writable count holding [c]. *)
Definition count_of (c : Z) : user_int :=
  {| ui_value := Some c; ui_writable := true |}.

(** A buffer with room for [bytes] bytes. *)
Definition room_for (bytes : Z) : user_buf := {| ub_writable := bytes |}.

(** ** Facts about the image of a tree *)

(** Comparisons of list heads whose outcome their shape settles. *)
Ltac settle_heads :=
  repeat first
    [ rewrite bool_decide_eq_true_2 by reflexivity
    | rewrite bool_decide_eq_false_2 by discriminate ];
  simpl.

Lemma subtree_cons t i q s :
  subtree t (i :: q) = Some s ->
  exists s', subtree t q = Some s' /\ kids_of s' !! i = Some s.
Proof.
  simpl. destruct (subtree t q) as [s'|]; [|discriminate].
  intros Hs. exists s'. split; [reflexivity|exact Hs].
Qed.

Lemma subtree_tail t p s :
  subtree t p = Some s -> is_Some (subtree t (tail p)).
Proof.
  destruct p as [|i q]; simpl.
  - intros _. eexists; reflexivity.
  - destruct (subtree t q); [eexists; reflexivity|discriminate].
Qed.

Lemma nkids_lookup t i q :
  (i < nkids t q)%nat -> is_Some (subtree t (i :: q)).
Proof.
  unfold nkids. simpl. destruct (subtree t q) as [s|]; simpl; [|lia].
  intros Hi. apply lookup_lt_is_Some_2. exact Hi.
Qed.

Lemma subtree_nkids t i q s :
  subtree t (i :: q) = Some s -> (i < nkids t q)%nat.
Proof.
  intros Hs. apply subtree_cons in Hs as (s' & Hq & Hi).
  unfold nkids. rewrite Hq. eapply lookup_lt_Some. exact Hi.
Qed.

Lemma load_image t p s :
  subtree t p = Some s ->
  load (image t) p =
  Ret {| task_pid := info_pid (info_of s);
         task_state := info_state (info_of s);
         task_uid := info_uid (info_of s);
         task_comm := info_comm (info_of s);
         real_parent := tail p;
         parent := tail p;
         children := children_head p (length (kids_of s));
         sibling := sibling_link t p |}.
Proof. intros Hs. unfold load, image. rewrite Hs. reflexivity. Qed.

Lemma task_pid_nr_image t p s :
  subtree t p = Some s ->
  task_pid_nr (image t) p = Ret (info_pid (info_of s)).
Proof. intros Hs. unfold task_pid_nr. rewrite (load_image _ _ _ Hs). reflexivity. Qed.

Lemma task_pid_nr_pid_at t p :
  is_Some (subtree t p) -> task_pid_nr (image t) p = Ret (pid_at t p).
Proof.
  intros [s Hs]. rewrite (task_pid_nr_image _ _ _ Hs).
  unfold pid_at. rewrite Hs. reflexivity.
Qed.

Lemma last_length {A} (l : list A) n :
  length l = S n -> last l = l !! n.
Proof.
  intros Hl. rewrite last_lookup, Hl. reflexivity.
Qed.

Lemma get_ppid_image t p s :
  subtree t p = Some s -> get_ppid (image t) p = Ret (pid_at t (tail p)).
Proof.
  intros Hs. unfold get_ppid. rewrite (load_image _ _ _ Hs). simpl.
  apply task_pid_nr_pid_at. eapply subtree_tail. exact Hs.
Qed.

Lemma get_youngest_child_pid_image t p s :
  subtree t p = Some s ->
  get_youngest_child_pid (image t) p =
  Ret (match last (kids_of s) with
       | Some y => info_pid (info_of y)
       | None => 0
       end).
Proof.
  intros Hs. unfold get_youngest_child_pid, list_empty, load_list. simpl.
  rewrite (load_image _ _ _ Hs). simpl.
  destruct (length (kids_of s)) as [|n] eqn:Hlen; simpl.
  - settle_heads.
    apply length_zero_iff_nil in Hlen. rewrite Hlen. reflexivity.
  - settle_heads.
    rewrite (last_length _ _ Hlen).
    destruct (lookup_lt_is_Some_2 (kids_of s) n) as [y Hy]; [lia|].
    rewrite Hy.
    apply task_pid_nr_image. simpl. rewrite Hs. exact Hy.
Qed.

Lemma get_next_sibling_pid_image t p s :
  subtree t p = Some s ->
  get_next_sibling_pid (image t) p =
  Ret (match p with
       | [] => pid_at t []
       | i :: q => if bool_decide (S i < nkids t q)%nat
                   then pid_at t (S i :: q) else 0
       end).
Proof.
  intros Hs. unfold get_next_sibling_pid, list_is_last, load_list. simpl.
  rewrite (load_image _ _ _ Hs). simpl.
  destruct p as [|i q]; simpl.
  - apply task_pid_nr_pid_at. eexists; reflexivity.
  - destruct (bool_decide (S i < nkids t q)%nat) eqn:Hi; simpl.
    + settle_heads. apply task_pid_nr_pid_at. apply nkids_lookup.
      apply bool_decide_eq_true_1 in Hi. exact Hi.
    + settle_heads. reflexivity.
Qed.

(** A uid in the range of [long] is stored as it is. *)
Lemma to_long_fits `{target} x :
  0 < LONG_BIT ->
  - 2 ^ (LONG_BIT - 1) <= x < 2 ^ (LONG_BIT - 1) -> to_long x = x.
Proof.
  intros Hbit Hx. unfold to_long.
  assert (2 ^ LONG_BIT = 2 * 2 ^ (LONG_BIT - 1)) as Hpow.
  { rewrite <- Z.pow_succ_r by lia. f_equal. lia. }
  rewrite Z.mod_small by lia. lia.
Qed.

(** With a [long] of 32 bits a uid in the upper half of the range of
    [uid_t] is stored [2^32] lower. *)
Lemma to_long_wraps `{target} x :
  LONG_BIT = 32 -> 2 ^ 31 <= x < 2 ^ 32 -> to_long x = x - 2 ^ 32.
Proof.
  intros Hbit Hx. unfold to_long. rewrite Hbit.
  change (32 - 1) with 31.
  replace (x + 2 ^ 31) with (x - 2 ^ 31 + 1 * 2 ^ 32) by lia.
  rewrite Z.mod_add by lia. rewrite Z.mod_small by lia. lia.
Qed.

Lemma store_node_image `{target} t p s :
  subtree t p = Some s -> store_node (image t) p = Ret (record_of t p).
Proof.
  intros Hs. unfold store_node.
  rewrite (get_ppid_image _ _ _ Hs). simpl.
  rewrite (task_pid_nr_image _ _ _ Hs). simpl.
  rewrite (get_youngest_child_pid_image _ _ _ Hs). simpl.
  rewrite (get_next_sibling_pid_image _ _ _ Hs). simpl.
  rewrite (load_image _ _ _ Hs). simpl.
  unfold record_of, pid_at. rewrite Hs. reflexivity.
Qed.

(** Where a task has children the walk goes to the eldest. *)
Lemma dfs_next_descend t p s budget :
  subtree t p = Some s -> kids_of s <> [] ->
  dfs_next [] (image t) budget p = Ret (Some (O :: p)).
Proof.
  intros Hs Hk. unfold dfs_next, list_empty, list_first_entry, load_list.
  cbn [lp_task lp_member]. rewrite (load_image _ _ _ Hs). simpl.
  destruct (length (kids_of s)) as [|n] eqn:Hlen.
  - apply length_zero_iff_nil in Hlen. contradiction.
  - simpl. settle_heads. reflexivity.
Qed.

(** ** The recorded first child and the child visited first *)

(** C1, as amended: for every tree and every task with at least one
    child, the record stored for the task holds in [first_child_pid] the
    pid of its youngest child, the last of its children list, while the
    walk goes on to its eldest child, the first of that list; for a task
    with a single child the two are the same task. *)
Theorem first_child_pid_is_youngest `{target} t p s budget :
  subtree t p = Some s -> kids_of s <> [] ->
  exists r eldest youngest,
    head (kids_of s) = Some eldest /\
    last (kids_of s) = Some youngest /\
    store_node (image t) p = Ret r /\
    first_child_pid r = info_pid (info_of youngest) /\
    dfs_next [] (image t) budget p = Ret (Some (O :: p)) /\
    task_pid_nr (image t) (O :: p) = Ret (info_pid (info_of eldest)) /\
    (length (kids_of s) = 1%nat -> youngest = eldest).
Proof.
  intros Hs Hk.
  destruct (kids_of s) as [|k ks] eqn:Hkids; [contradiction|].
  destruct (last (k :: ks)) as [y|] eqn:Hlast.
  2:{ apply last_None in Hlast. discriminate. }
  exists (record_of t p), k, y.
  split; [reflexivity|]. split; [reflexivity|].
  split; [apply (store_node_image _ _ _ Hs)|].
  split.
  { unfold record_of. simpl. rewrite Hs, Hkids, Hlast. reflexivity. }
  split.
  { apply (dfs_next_descend _ _ _ _ Hs). rewrite Hkids. discriminate. }
  split.
  { apply task_pid_nr_image. simpl. rewrite Hs, Hkids. reflexivity. }
  destruct ks as [|k' ks]; [|discriminate].
  intros _. simpl in Hlast. congruence.
Qed.

Lemma first_child_pid_is_youngest_witness :
  exists r eldest youngest,
    head (kids_of two_children) = Some eldest /\
    last (kids_of two_children) = Some youngest /\
    store_node (image two_children) [] = Ret r /\
    first_child_pid r = info_pid (info_of youngest) /\
    dfs_next [] (image two_children) 1%nat [] = Ret (Some [O]) /\
    task_pid_nr (image two_children) [O] = Ret (info_pid (info_of eldest)) /\
    (length (kids_of two_children) = 1%nat -> youngest = eldest).
Proof.
  apply (first_child_pid_is_youngest two_children [] two_children 1%nat).
  - reflexivity.
  - simpl. discriminate.
Defined.

(** C1, as stated, fails where a task has two children: the record of
    [R] names the pid of [B], the walk goes on to [A]. *)
Lemma first_child_pid_not_next_visited :
  exists r nxt p,
    store_node (image two_children) [] = Ret r /\
    dfs_next [] (image two_children) 1%nat [] = Ret (Some nxt) /\
    task_pid_nr (image two_children) nxt = Ret p /\
    first_child_pid r <> p.
Proof.
  exists (record_of two_children []), [O], 1.
  repeat split; try reflexivity. discriminate.
Qed.

(** X6: the record stored for a task holds the task's own pid, state
    and name, the pid of its parent (its own for the root), the pid of its
    youngest child or 0, and the pid of its next younger sibling or 0 (for
    the root, whose [sibling] member is a list of its own, its own pid).
    Its owner is the task's uid converted to [long]: the uid itself where
    [long] holds it; with a [long] of 32 bits a uid from [2^31] on is
    stored [2^32] lower, as a negative number. *)
Theorem record_matches_tree `{target} t p s :
  subtree t p = Some s ->
  exists r,
    store_node (image t) p = Ret r /\
    pid r = info_pid (info_of s) /\
    state r = info_state (info_of s) /\
    uid r = to_long (info_uid (info_of s)) /\
    (0 < LONG_BIT ->
     - 2 ^ (LONG_BIT - 1) <= info_uid (info_of s) < 2 ^ (LONG_BIT - 1) ->
     uid r = info_uid (info_of s)) /\
    (LONG_BIT = 32 -> 2 ^ 31 <= info_uid (info_of s) < 2 ^ 32 ->
     uid r = info_uid (info_of s) - 2 ^ 32) /\
    comm r = info_comm (info_of s) /\
    parent_pid r = pid_at t (tail p) /\
    first_child_pid r
    = match last (kids_of s) with
      | Some y => info_pid (info_of y)
      | None => 0
      end /\
    next_sibling_pid r
    = match p with
      | [] => info_pid (info_of t)
      | i :: q => if bool_decide (S i < nkids t q)%nat
                  then pid_at t (S i :: q) else 0
      end.
Proof.
  intros Hs. exists (record_of t p).
  split; [apply (store_node_image _ _ _ Hs)|].
  unfold record_of, pid_at. simpl. rewrite Hs.
  repeat split; try reflexivity.
  - apply to_long_fits.
  - apply to_long_wraps.
Qed.

Lemma record_matches_tree_witness :
  exists r,
    store_node (image owned) [O] = Ret r /\
    pid r = 1 /\ state r = 0 /\ uid r = -1294967296 /\
    comm r = EmptyString /\
    parent_pid r = 0 /\ first_child_pid r = 0 /\ next_sibling_pid r = 0.
Proof.
  destruct (record_matches_tree owned [O]
              (Node {| info_pid := 1; info_state := 0; info_uid := 3000000000;
                       info_comm := EmptyString |} []) eq_refl)
    as (r & Hr & Hpid & Hstate & _ & _ & Hwrap & Hcomm & Hpp & Hfc & Hns).
  exists r. split; [exact Hr|]. split; [exact Hpid|]. split; [exact Hstate|].
  split; [apply Hwrap; [reflexivity|simpl; lia]|].
  split; [exact Hcomm|]. split; [exact Hpp|]. split; [exact Hfc|exact Hns].
Defined.

(** ** The walk over any memory *)

Section WalkFacts.

Context `{target} {task_ptr : Type} `{EqDecision task_ptr}.

Variable init_task : task_ptr.
Variable mem : memory task_ptr.

Lemma int_add_ret a b c :
  int_add a b = Ret c -> c = a + b /\ INT_MIN <= c <= INT_MAX.
Proof.
  unfold int_add. case_bool_decide as Hr; [|discriminate].
  intros [= <-]. split; [reflexivity|exact Hr].
Qed.

Lemma store_at_ret buf i tsk buf' :
  store_at mem buf i tsk = Ret buf' ->
  exists r, store_node mem tsk = Ret r /\
            0 <= i < Z.of_nat (length buf) /\
            buf' = <[Z.to_nat i := Some r]> buf.
Proof.
  unfold store_at. destruct (store_node mem tsk) as [r| |]; simpl; try discriminate.
  case_bool_decide as Hi; [|discriminate].
  intros [= <-]. exists r. auto.
Qed.

Lemma filled_store (buf : kbuf) i r :
  0 <= i -> filled buf i -> filled (<[Z.to_nat i := Some r]> buf) (i + 1).
Proof.
  intros Hi Hf j o Hj.
  destruct (decide (j = Z.to_nat i)) as [->|Hne].
  - assert (Z.to_nat i < length buf)%nat as Hlt.
    { apply lookup_lt_Some in Hj. rewrite length_insert in Hj. exact Hj. }
    rewrite list_lookup_insert_eq in Hj by exact Hlt.
    injection Hj as <-. split; [lia|eauto].
  - rewrite list_lookup_insert_ne in Hj by congruence.
    rewrite (Hf j o Hj). lia.
Qed.

(** What a walk that returns has done: the buffer keeps its length, the
    count has grown without leaving the range of [int], and the slots
    below [min(iterations, knr)] are the ones written. *)
Lemma dfs_loop_ret budget fuel knr :
  forall buf it cur buf' it',
    dfs_loop init_task mem budget fuel knr buf it cur = Ret (buf', it') ->
    0 <= it ->
    length buf' = length buf /\
    it < it' <= INT_MAX /\
    (filled buf (Z.min it knr) -> filled buf' (Z.min it' knr)).
Proof.
  induction fuel as [|fuel IH]; intros buf it cur buf' it' Hrun Hit;
    simpl in Hrun; [discriminate|].
  destruct (if it <? knr then store_at mem buf it cur else Ret buf)
    as [buf1| |] eqn:Hstore; simpl in Hrun; try discriminate.
  destruct (int_add it 1) as [it1| |] eqn:Hadd; simpl in Hrun; try discriminate.
  apply int_add_ret in Hadd as [-> Hrange].
  assert (length buf1 = length buf /\
          (filled buf (Z.min it knr) -> filled buf1 (Z.min (it + 1) knr)))
    as [Hlen Hfill].
  { destruct (it <? knr) eqn:Hlt.
    - apply Z.ltb_lt in Hlt.
      apply store_at_ret in Hstore as (r & _ & Hi & ->).
      split; [apply length_insert|].
      rewrite !Z.min_l by lia. apply filled_store. lia.
    - apply Z.ltb_ge in Hlt. injection Hstore as <-.
      split; [reflexivity|]. rewrite !Z.min_r by lia. auto. }
  destruct (dfs_next init_task mem budget cur) as [[nxt|]| |];
    simpl in Hrun; try discriminate.
  - apply IH in Hrun as (Hlen' & Hit' & Hfill'); [|lia].
    split; [congruence|]. split; [lia|]. auto.
  - injection Hrun as <- <-. split; [exact Hlen|]. split; [lia|exact Hfill].
Qed.

Lemma filled_replicate n k : k <= 0 -> filled (replicate n None) k.
Proof.
  intros Hk j o Hj. apply lookup_replicate in Hj as [-> _].
  split; [intros [x Hx]; discriminate|lia].
Qed.

(** [dfs_add] from an empty buffer. *)
Lemma dfs_add_ret fuel n knr buf count total :
  dfs_add init_task mem fuel (replicate n None) knr = Ret (buf, count, total) ->
  length buf = n /\
  1 <= total <= INT_MAX /\
  count = Z.min total knr /\
  filled buf count.
Proof.
  unfold dfs_add.
  destruct (dfs_loop init_task mem fuel fuel knr (replicate n None) 0 init_task)
    as [[buf' it']| |] eqn:Hrun; simpl; try discriminate.
  intros [= <- <- <-].
  apply dfs_loop_ret in Hrun as (Hlen & Hit & Hfill); [|lia].
  rewrite length_replicate in Hlen.
  assert ((if it' <? knr then it' else knr) = Z.min it' knr) as ->.
  { destruct (it' <? knr) eqn:Hlt; [apply Z.ltb_lt in Hlt|apply Z.ltb_ge in Hlt]; lia. }
  split; [exact Hlen|]. split; [lia|]. split; [reflexivity|].
  apply Hfill. apply filled_replicate. lia.
Qed.

Lemma bind_no_timeout {A B} (c : outcome A) (k : A -> outcome B) :
  c <> Timeout -> (forall a, k a <> Timeout) -> bind c k <> Timeout.
Proof. intros Hc Hk. destruct c; simpl; [apply Hk|discriminate|contradiction]. Qed.

Lemma store_node_no_timeout tsk : store_node mem tsk <> Timeout.
Proof.
  unfold store_node, get_ppid, task_pid_nr, get_youngest_child_pid,
    get_next_sibling_pid, list_empty, list_is_last, list_entry, load_list, load.
  repeat first
    [ discriminate
    | apply bind_no_timeout; [|intros ?]
    | match goal with
      | |- (match ?x with _ => _ end) <> _ => destruct x
      end
    | progress unfold task_pid_nr, load ].
Qed.

Lemma store_at_no_timeout buf i tsk : store_at mem buf i tsk <> Timeout.
Proof.
  unfold store_at. pose proof (store_node_no_timeout tsk) as Hs.
  destruct (store_node mem tsk); simpl; [|discriminate|contradiction].
  case_bool_decide; discriminate.
Qed.

(** Where the cursor leaves the tasks, so does the loop, whatever its
    buffer and its counter. *)
Lemma dfs_loop_fault budget fuel knr :
  forall buf it cur,
    visits init_task mem budget fuel cur = Fault ->
    dfs_loop init_task mem budget fuel knr buf it cur = Fault.
Proof.
  induction fuel as [|fuel IH]; intros buf it cur; simpl; [discriminate|].
  intros Hv.
  destruct (if it <? knr then store_at mem buf it cur else Ret buf)
    as [buf1| |] eqn:Hstore; simpl; [|reflexivity|].
  2:{ destruct (it <? knr); [|discriminate Hstore].
      exfalso. exact (store_at_no_timeout _ _ _ Hstore). }
  unfold int_add. case_bool_decide; simpl; [|reflexivity].
  destruct (dfs_next init_task mem budget cur) as [[nxt|]| |];
    simpl in *; try discriminate; [|reflexivity].
  apply IH.
  destruct (visits init_task mem budget fuel nxt); simpl in Hv;
    try discriminate; reflexivity.
Qed.

Lemma dfs_add_fault fuel buf knr :
  visits init_task mem fuel fuel init_task = Fault ->
  dfs_add init_task mem fuel buf knr = Fault.
Proof.
  intros Hv. unfold dfs_add. rewrite (dfs_loop_fault _ _ _ _ _ _ Hv). reflexivity.
Qed.

End WalkFacts.

(** ** The system call over any memory *)

Section SyscallFacts.

Context `{target} {task_ptr : Type} `{EqDecision task_ptr}.

Variable init_task : task_ptr.

Lemma MIN_min a b : MIN a b = Z.min a b.
Proof.
  unfold MIN. destruct (a <? b) eqn:Hlt;
    [apply Z.ltb_lt in Hlt|apply Z.ltb_ge in Hlt]; lia.
Qed.

Lemma count_processes_ret (procs : list task_ptr) :
  forall count n,
    count_processes procs count = Ret n ->
    n = count + Z.of_nat (length procs).
Proof.
  induction procs as [|p procs IH]; intros count n; simpl.
  - intros [= <-]. lia.
  - destruct (int_add count 1) as [c| |] eqn:Hadd; simpl; try discriminate.
    apply int_add_ret in Hadd as [-> _].
    intros Hn. apply IH in Hn. lia.
Qed.

(** A call that returns without having asked for memory stopped at the
    validation of its arguments. *)
Lemma sys_ptree_early fuel (sys : system task_ptr) buf nr res :
  sys_ptree init_task fuel sys buf nr = Ret res ->
  requested res = None ->
  res = error (- EINVAL) None \/ res = error (- EFAULT) None.
Proof.
  unfold sys_ptree. intros Hrun Hreq.
  destruct buf as [ubuf|], nr as [unr|]; try (injection Hrun as <-; auto; fail).
  destruct (get_user unr) as [knr|]; [|injection Hrun as <-; auto].
  destruct (knr <? 1); [injection Hrun as <-; auto|].
  destruct (get_num_of_processes (at_probe sys)) as [n| |];
    simpl in Hrun; try discriminate.
  destruct (int_add n EXTRA_SLOTS) as [slots| |]; simpl in Hrun; try discriminate.
  destruct (kmalloc_array sys (MIN slots knr) (sizeof_prinfo sys)) as [kbuf0|].
  - destruct (dfs_add _ _ _ _ _) as [[[kbuf1 kslots1] nproc1]| |];
      simpl in Hrun; try discriminate.
    repeat match type of Hrun with
           | context [if ?b then _ else _] => destruct b
           end; injection Hrun as <-; discriminate.
  - injection Hrun as <-. discriminate.
Qed.

(** A call that returns having asked for [s] slots: how [s] was computed,
    and how the call went on. *)
Lemma sys_ptree_requested fuel (sys : system task_ptr) buf nr res s :
  sys_ptree init_task fuel sys buf nr = Ret res ->
  requested res = Some s ->
  exists ubuf unr knr n,
    buf = Some ubuf /\ nr = Some unr /\ get_user unr = Some knr /\
    1 <= knr /\
    get_num_of_processes (at_probe sys) = Ret n /\
    s = Z.min (n + EXTRA_SLOTS) knr /\
    ((res = error (- ENOMEM) (Some s) /\
      kmalloc_array sys s (sizeof_prinfo sys) = None)
     \/
     (exists kbuf1 kslots1 nproc1,
        0 <= s /\
        dfs_add init_task (tasks (at_walk sys)) fuel
                (replicate (Z.to_nat s) None) s = Ret (kbuf1, kslots1, nproc1) /\
        buffer res = Some kbuf1 /\ walked res = true /\ freed res = true /\
        ((retval res = - EFAULT /\ nr_stored res = None) \/
         (retval res = nproc1 /\ nr_stored res = Some kslots1 /\
          ui_writable unr = true)))).
Proof.
  unfold sys_ptree. intros Hrun Hreq.
  destruct buf as [ubuf|], nr as [unr|];
    try (injection Hrun as <-; discriminate).
  destruct (get_user unr) as [knr|] eqn:Hget; [|injection Hrun as <-; discriminate].
  destruct (knr <? 1) eqn:Hknr; [injection Hrun as <-; discriminate|].
  apply Z.ltb_ge in Hknr.
  destruct (get_num_of_processes (at_probe sys)) as [n| |] eqn:Hn;
    simpl in Hrun; try discriminate.
  destruct (int_add n EXTRA_SLOTS) as [slots| |] eqn:Hadd;
    simpl in Hrun; try discriminate.
  apply int_add_ret in Hadd as [-> _].
  rewrite MIN_min in Hrun.
  exists ubuf, unr, knr, n.
  destruct (kmalloc_array sys (Z.min (n + EXTRA_SLOTS) knr) (sizeof_prinfo sys))
    as [kbuf0|] eqn:Hk.
  - unfold kmalloc_array in Hk.
    destruct (0 <=? Z.min (n + EXTRA_SLOTS) knr) eqn:Hpos; simpl in Hk;
      [|discriminate].
    apply Z.leb_le in Hpos.
    destruct (kmalloc_ok sys _); [|discriminate].
    injection Hk as <-.
    destruct (dfs_add _ _ _ _ _) as [[[kbuf1 kslots1] nproc1]| |] eqn:Hwalk;
      simpl in Hrun; try discriminate.
    assert (s = Z.min (n + EXTRA_SLOTS) knr) as ->.
    { repeat match type of Hrun with
             | context [if ?b then _ else _] => destruct b
             end; injection Hrun as <-; simpl in Hreq; congruence. }
    repeat split; try assumption; try reflexivity.
    right. exists kbuf1, kslots1, nproc1.
    split; [exact Hpos|]. split; [exact Hwalk|].
    destruct (to_int _ <? 0).
    { injection Hrun as <-. simpl. auto 10. }
    unfold put_user in Hrun.
    destruct (ui_writable unr); simpl in Hrun;
      injection Hrun as <-; simpl; auto 10.
  - injection Hrun as <-. simpl in Hreq. injection Hreq as <-.
    repeat split; try assumption; try reflexivity.
    left. auto.
Qed.

End SyscallFacts.

Section SyscallProperties.

Context `{target} {task_ptr : Type} `{EqDecision task_ptr}.

Variable init_task : task_ptr.

(** C6: in every successful call with capacity [c >= 1] the count stored
    through [nr] is at most [min(c, total)], [total] being the value
    returned, and it is the number of slots of the kernel buffer that were
    written: the slots below it hold a record, the others none. *)
Theorem stored_count_bounded fuel (sys : system task_ptr) ubuf unr c res :
  get_user unr = Some c ->
  1 <= c ->
  sys_ptree init_task fuel sys (Some ubuf) (Some unr) = Ret res ->
  0 <= retval res ->
  exists v b,
    nr_stored res = Some v /\
    buffer res = Some b /\
    0 <= v <= Z.min c (retval res) /\
    v <= Z.of_nat (length b) /\
    filled b v.
Proof.
  intros Hget Hc Hrun Hok.
  destruct (requested res) as [s|] eqn:Hreq.
  2:{ destruct (sys_ptree_early _ _ _ _ _ _ Hrun Hreq) as [-> | ->];
      simpl in Hok; unfold EINVAL, EFAULT in Hok; lia. }
  destruct (sys_ptree_requested _ _ _ _ _ _ _ Hrun Hreq)
    as (ubuf' & unr' & knr & n & _ & [= <-] & Hget' & _ & _ & Hs & Hend).
  rewrite Hget in Hget'. injection Hget' as <-.
  destruct Hend as [[-> _]|(kbuf1 & kslots1 & nproc1 & Hpos & Hwalk & Hbuf & _ & _ & Hret)].
  { simpl in Hok. unfold ENOMEM in Hok. lia. }
  destruct Hret as [[Hret _]|(Hret & Hst & _)].
  { rewrite Hret in Hok. unfold EFAULT in Hok. lia. }
  apply dfs_add_ret in Hwalk as (Hlen & Htot & Hcount & Hfill).
  exists kslots1, kbuf1.
  split; [exact Hst|]. split; [exact Hbuf|].
  rewrite Hret. rewrite Hlen. split; [lia|]. split; [lia|exact Hfill].
Qed.

(** C7: a call with a capacity of at least 1 asks for a buffer of
    [min(n + 15, capacity)] slots, [n] being the count
    [get_num_of_processes] found in the first locked section and
    [capacity] the value read from [nr]. Where [kmalloc] serves the
    request the buffer is allocated with exactly that many slots and
    handed to the walk; the call returns where the walk does, and its
    buffer then still has that many slots. *)
Theorem allocated_slots fuel (sys : system task_ptr) ubuf unr capacity n :
  get_user unr = Some capacity ->
  1 <= capacity ->
  get_num_of_processes (at_probe sys) = Ret n ->
  n + 15 <= INT_MAX ->
  kmalloc_ok sys (Z.min (n + 15) capacity * sizeof_prinfo sys) = true ->
  n = Z.of_nat (length (for_each_process (at_probe sys))) /\
  match dfs_add init_task (tasks (at_walk sys)) fuel
          (replicate (Z.to_nat (Z.min (n + 15) capacity)) None)
          (Z.min (n + 15) capacity) with
  | Ret (b, _, _) =>
      exists res,
        sys_ptree init_task fuel sys (Some ubuf) (Some unr) = Ret res /\
        requested res = Some (Z.min (n + 15) capacity) /\
        buffer res = Some b /\
        Z.of_nat (length b) = Z.min (n + 15) capacity
  | Fault => sys_ptree init_task fuel sys (Some ubuf) (Some unr) = Fault
  | Timeout => sys_ptree init_task fuel sys (Some ubuf) (Some unr) = Timeout
  end.
Proof.
  intros Hget Hc Hn Hmax Hok.
  pose proof (count_processes_ret _ _ _ Hn) as Hlen.
  split; [lia|].
  unfold sys_ptree. rewrite Hget.
  assert ((capacity <? 1) = false) as -> by (apply Z.ltb_ge; lia).
  rewrite Hn. cbn [bind].
  unfold int_add, EXTRA_SLOTS.
  rewrite bool_decide_eq_true_2 by (unfold INT_MIN, INT_MAX in *; lia).
  cbn [bind]. rewrite MIN_min. unfold kmalloc_array. rewrite Hok.
  assert ((0 <=? Z.min (n + 15) capacity) = true) as -> by (apply Z.leb_le; lia).
  cbn [andb].
  destruct (dfs_add _ _ _ _ _) as [[[b k] total]| |] eqn:Hwalk;
    cbn [bind]; [|reflexivity|reflexivity].
  apply dfs_add_ret in Hwalk as (Hb & _).
  assert (Z.of_nat (length b) = Z.min (n + 15) capacity) as Hslots by lia.
  repeat match goal with
         | |- context [if ?c then _ else _] => destruct c
         end; eexists; (split; [reflexivity|]); simpl; auto.
Qed.

(** C8: with a null [buf], a null [nr] or a capacity below 1 the call
    returns [-EINVAL]; it has asked for no memory, has not walked the
    tree, and has stored nothing for the caller. *)
Theorem invalid_argument fuel (sys : system task_ptr) buf nr :
  buf = None \/ nr = None \/
  (exists unr c, nr = Some unr /\ get_user unr = Some c /\ c < 1) ->
  exists res,
    sys_ptree init_task fuel sys buf nr = Ret res /\
    retval res = - EINVAL /\
    requested res = None /\ buffer res = None /\ walked res = false /\
    copied res = [] /\ nr_stored res = None.
Proof.
  intros Hbad. exists (error (- EINVAL) None).
  split; [|repeat split].
  unfold sys_ptree.
  destruct buf as [ubuf|]; [|destruct nr; reflexivity].
  destruct nr as [unr|]; [|reflexivity].
  destruct Hbad as [Hb|[Hn|(unr' & c & [= <-] & Hget & Hc)]]; try discriminate.
  rewrite Hget. apply Z.ltb_lt in Hc. rewrite Hc. reflexivity.
Qed.

(** C10: a call that returns a negative value has stored nothing in the
    caller's count. *)
Theorem count_kept_on_error fuel (sys : system task_ptr) buf nr res :
  sys_ptree init_task fuel sys buf nr = Ret res ->
  retval res < 0 ->
  nr_stored res = None.
Proof.
  intros Hrun Hneg.
  destruct (requested res) as [s|] eqn:Hreq.
  2:{ destruct (sys_ptree_early _ _ _ _ _ _ Hrun Hreq) as [-> | ->]; reflexivity. }
  destruct (sys_ptree_requested _ _ _ _ _ _ _ Hrun Hreq)
    as (ubuf & unr & knr & n & _ & _ & _ & _ & _ & _ & Hend).
  destruct Hend as [[-> _]|(kbuf1 & kslots1 & nproc1 & _ & Hwalk & _ & _ & _ & Hret)].
  { reflexivity. }
  destruct Hret as [[_ Hst]|(Hret & _)]; [exact Hst|].
  apply dfs_add_ret in Hwalk as (_ & Htot & _). lia.
Qed.

End SyscallProperties.

Lemma stored_count_bounded_witness :
  exists res,
    sys_ptree [] 4 (machine scenario) (Some (room_for 1000)) (Some (count_of 2))
    = Ret res /\
    exists v b,
      nr_stored res = Some v /\
      buffer res = Some b /\
      0 <= v <= Z.min 2 (retval res) /\
      v <= Z.of_nat (length b) /\
      filled b v.
Proof.
  eexists. split; [vm_compute; reflexivity|].
  eapply (stored_count_bounded [] 4 (machine scenario) (room_for 1000) (count_of 2) 2).
  - reflexivity.
  - lia.
  - vm_compute. reflexivity.
  - simpl. lia.
Defined.

Lemma allocated_slots_witness :
  exists res b,
    sys_ptree [] 4 (machine scenario) (Some (room_for 1000)) (Some (count_of 2))
    = Ret res /\
    requested res = Some 2 /\
    buffer res = Some b /\
    length b = 2%nat.
Proof.
  pose proof (allocated_slots [] 4 (machine scenario) (room_for 1000)
                (count_of 2) 2 3) as Hall.
  destruct Hall as (_ & res & Hrun & Hreq & Hbuf & Hlen);
    [reflexivity|lia|reflexivity|unfold INT_MAX; lia|reflexivity|].
  exists res. eexists. split; [exact Hrun|]. split; [exact Hreq|].
  split; [exact Hbuf|reflexivity].
Defined.

Lemma invalid_argument_witness :
  exists res,
    sys_ptree [] 0 (machine scenario) (Some (room_for 1000)) (Some (count_of 0))
    = Ret res /\
    retval res = - EINVAL /\
    requested res = None /\ buffer res = None /\ walked res = false /\
    copied res = [] /\ nr_stored res = None.
Proof.
  apply (invalid_argument [] 0 (machine scenario)).
  right. right. exists (count_of 0), 0.
  split; [reflexivity|]. split; [reflexivity|lia].
Defined.

Lemma count_kept_on_error_witness :
  exists res,
    sys_ptree [] 4 (machine scenario) (Some (room_for 1000))
      (Some {| ui_value := Some 2; ui_writable := false |}) = Ret res /\
    retval res = - EFAULT /\
    nr_stored res = None.
Proof.
  eexists. split; [vm_compute; reflexivity|]. split; [reflexivity|].
  eapply (count_kept_on_error [] 4 (machine scenario) (Some (room_for 1000))
            (Some {| ui_value := Some 2; ui_writable := false |})).
  - vm_compute. reflexivity.
  - vm_compute. reflexivity.
Defined.

(** ** The kernel buffer *)

Section BufferFacts.

Context `{target} {task_ptr : Type} `{EqDecision task_ptr}.

Variable init_task : task_ptr.

(** X7: a call that returns has freed the buffer it allocated, and frees
    nothing where it allocated none. *)
Theorem buffer_freed fuel (sys : system task_ptr) buf nr res :
  sys_ptree init_task fuel sys buf nr = Ret res ->
  freed res = bool_decide (is_Some (buffer res)).
Proof.
  intros Hrun.
  destruct (requested res) as [s|] eqn:Hreq.
  2:{ destruct (sys_ptree_early _ _ _ _ _ _ Hrun Hreq) as [-> | ->]; reflexivity. }
  destruct (sys_ptree_requested _ _ _ _ _ _ _ Hrun Hreq)
    as (ubuf & unr & knr & n & _ & _ & _ & _ & _ & _ & Hend).
  destruct Hend as [[-> _]|(kbuf1 & kslots1 & nproc1 & _ & _ & Hbuf & _ & Hfreed & _)].
  - reflexivity.
  - rewrite Hbuf, Hfreed. reflexivity.
Qed.

(** X8: every slot that reaches the caller's buffer holds a record the walk
    stored: no slot is copied out as [kmalloc] left it. *)
Theorem copied_slots_written fuel (sys : system task_ptr) buf nr res :
  0 < sizeof_prinfo sys ->
  sys_ptree init_task fuel sys buf nr = Ret res ->
  Forall is_Some (copied res).
Proof.
  intros Hsize Hrun. unfold sys_ptree in Hrun.
  destruct buf as [ubuf|], nr as [unr|];
    try (injection Hrun as <-; constructor).
  destruct (get_user unr) as [knr|]; [|injection Hrun as <-; constructor].
  destruct (knr <? 1); [injection Hrun as <-; constructor|].
  destruct (get_num_of_processes (at_probe sys)) as [n| |];
    simpl in Hrun; try discriminate.
  destruct (int_add n EXTRA_SLOTS) as [slots| |]; simpl in Hrun; try discriminate.
  unfold kmalloc_array in Hrun.
  destruct ((0 <=? MIN slots knr) && kmalloc_ok sys (MIN slots knr * sizeof_prinfo sys));
    [|injection Hrun as <-; constructor].
  destruct (dfs_add _ _ _ _ _) as [[[kbuf1 kslots1] nproc1]| |] eqn:Hwalk;
    simpl in Hrun; try discriminate.
  apply dfs_add_ret in Hwalk as (Hlen & Htot & Hcount & Hfill).
  set (len := kslots1 * sizeof_prinfo sys) in *.
  set (left := copy_to_user ubuf len) in *.
  assert (Forall is_Some (take (Z.to_nat ((len - left) / sizeof_prinfo sys)) kbuf1))
    as Hall.
  { apply Forall_lookup. intros i o Hi.
    apply lookup_take_Some in Hi as [Hi Hlt].
    apply (Hfill i o Hi).
    assert ((len - left) / sizeof_prinfo sys <= kslots1) as Hle.
    { apply Z.div_le_upper_bound; [lia|].
      unfold left, copy_to_user, len. nia. }
    lia. }
  repeat match type of Hrun with
         | context [if ?b then _ else _] => destruct b
         end; injection Hrun as <-; exact Hall.
Qed.

End BufferFacts.

Lemma buffer_freed_witness :
  exists res,
    sys_ptree [] 4 (machine scenario) (Some (room_for 1000)) (Some (count_of 2))
    = Ret res /\
    freed res = bool_decide (is_Some (buffer res)).
Proof.
  eexists. split; [vm_compute; reflexivity|].
  eapply (buffer_freed [] 4 (machine scenario) (Some (room_for 1000))
            (Some (count_of 2))).
  vm_compute. reflexivity.
Defined.

Lemma copied_slots_written_witness :
  exists res,
    sys_ptree [] 4 (machine scenario) (Some (room_for 100)) (Some (count_of 2))
    = Ret res /\
    Forall is_Some (copied res).
Proof.
  eexists. split; [vm_compute; reflexivity|].
  eapply (copied_slots_written [] 4 (machine scenario) (Some (room_for 100))
            (Some (count_of 2))).
  - reflexivity.
  - vm_compute. reflexivity.
Defined.

(** ** The walk on the sample trees *)

(** X9: the scenario with capacity 10: the records of [R], [A], [C] and [B],
    in this order, and the count 4. *)
Theorem scenario_snapshot :
  exists res,
    sys_ptree [] 4 (machine scenario) (Some (room_for 1000)) (Some (count_of 10))
    = Ret res /\
    retval res = 4 /\
    nr_stored res = Some 4 /\
    copied res = map (fun p => Some (record_of scenario p)) [[]; [O]; [O; O]; [1%nat]] /\
    map pid (omap id (copied res)) = [0; 1; 3; 2].
Proof.
  eexists. split; [vm_compute; reflexivity|]. repeat split; reflexivity.
Qed.

(** C2 at the login session with capacity 10: the pre-order of its six
    tasks is 0, 1, 3, 4, 5, 2, but the call returns neither records nor a
    count. From [ptree], the fifth task, the walk climbs to [bash], then
    to [sshd], and takes the entry after [sshd] in a list where [sshd] is
    the last: computed from the [children] head of [init], it is no
    task. *)
Theorem session_snapshot_fails fuel :
  map (pid_at session) (preorder session []) = [0; 1; 3; 4; 5; 2] /\
  sys_ptree [] (5 + fuel) (machine session) (Some (room_for 1000))
    (Some (count_of 10))
  = Fault.
Proof. split; vm_compute; reflexivity. Qed.

(** C3 at the login session: neither the call with capacity 2 nor the
    call with capacity 6, the number of tasks, returns a record
    sequence. *)
Theorem session_truncated_snapshot_fails fuel :
  sys_ptree [] (5 + fuel) (machine session) (Some (room_for 1000))
    (Some (count_of 2))
  = Fault /\
  sys_ptree [] (5 + fuel) (machine session) (Some (room_for 1000))
    (Some (count_of 6))
  = Fault.
Proof. split; vm_compute; reflexivity. Qed.

(** C4 at the login session: whatever the capacity [k >= 1], no count is
    returned. *)
Theorem session_count_fails fuel (k : positive) :
  sys_ptree [] (5 + fuel) (machine session) (Some (room_for 1000))
    (Some (count_of (Z.pos k)))
  = Fault.
Proof.
  unfold sys_ptree. simpl get_user. cbv iota beta.
  assert ((Z.pos k <? 1) = false) as -> by (apply Z.ltb_ge; lia).
  assert (get_num_of_processes (at_probe (machine session)) = Ret 5) as ->
    by reflexivity.
  cbn [bind]. assert (int_add 5 EXTRA_SLOTS = Ret 20) as -> by reflexivity.
  cbn [bind]. rewrite MIN_min.
  unfold kmalloc_array. cbn [machine static_system kmalloc_ok sizeof_prinfo].
  assert ((0 <=? Z.min 20 (Z.pos k)) = true) as -> by (apply Z.leb_le; lia).
  cbn [andb].
  rewrite (dfs_add_fault [] (image session) (5 + fuel)) by reflexivity.
  reflexivity.
Qed.

(** C9 at the login session: the walk passes the root, [init], [sshd],
    [bash] and [ptree]; from [ptree] it finds neither [kthreadd], the
    sixth task, nor the end, whatever the buffer and the capacity. *)
Theorem session_walk_leaves_tree budget :
  node_count session = 6%nat /\
  dfs_next [] (image session) budget [] = Ret (Some [O]) /\
  dfs_next [] (image session) budget [O] = Ret (Some [O; O]) /\
  dfs_next [] (image session) budget [O; O] = Ret (Some [O; O; O]) /\
  dfs_next [] (image session) budget [O; O; O] = Ret (Some [O; O; O; O]) /\
  dfs_next [] (image session) (2 + budget) [O; O; O; O] = Fault /\
  forall fuel buf knr, dfs_add [] (image session) (5 + fuel) buf knr = Fault.
Proof.
  repeat split; try reflexivity.
  intros fuel buf knr. apply dfs_add_fault. reflexivity.
Qed.

(** ** A copy that fails *)

(** [copy_to_user] counts the bytes it left; stored in [rval], a count
    that fits an [int] is never below zero. *)
Lemma rval_not_negative buf len :
  0 <= len <= INT_MAX -> (to_int (copy_to_user buf len) <? 0) = false.
Proof.
  intros Hlen. apply Z.ltb_ge. unfold to_int, copy_to_user, INT_MAX in *.
  rewrite Z.mod_small by lia. lia.
Qed.

Section CopyCheck.

Context `{target} {task_ptr : Type} `{EqDecision task_ptr}.

Variable init_task : task_ptr.

(** X10: the test [rval < 0] after [copy_to_user] sends no call to
    [fail_free_mem]. With a capacity whose records take a number of bytes
    that fits an [int], a call that has walked returns [-EFAULT] exactly
    where the count cannot be stored through [nr], and with a writable
    count it returns the total and stores a count; whatever the caller's
    buffer takes, the call returns the same value and stores the same
    count. *)
Theorem copy_check_never_fires fuel (sys : system task_ptr) ubuf unr c res :
  get_user unr = Some c ->
  0 <= sizeof_prinfo sys ->
  c * sizeof_prinfo sys <= INT_MAX ->
  sys_ptree init_task fuel sys (Some ubuf) (Some unr) = Ret res ->
  walked res = true ->
  (retval res = - EFAULT <-> ui_writable unr = false) /\
  (ui_writable unr = true -> 1 <= retval res /\ is_Some (nr_stored res)) /\
  forall ubuf',
    exists res',
      sys_ptree init_task fuel sys (Some ubuf') (Some unr) = Ret res' /\
      retval res' = retval res /\
      nr_stored res' = nr_stored res.
Proof.
  intros Hget Hsize Hfit. unfold sys_ptree. rewrite Hget.
  destruct (c <? 1) eqn:Hc; [intros [= <-]; discriminate|].
  apply Z.ltb_ge in Hc.
  destruct (get_num_of_processes (at_probe sys)) as [n| |]; cbn [bind];
    try discriminate.
  destruct (int_add n EXTRA_SLOTS) as [slots| |]; cbn [bind]; try discriminate.
  rewrite MIN_min.
  destruct (kmalloc_array sys (Z.min slots c) (sizeof_prinfo sys))
    as [kbuf0|] eqn:Hk; [|intros [= <-]; discriminate].
  unfold kmalloc_array in Hk.
  destruct (0 <=? Z.min slots c) eqn:Hpos; simpl in Hk; [|discriminate].
  apply Z.leb_le in Hpos.
  destruct (kmalloc_ok sys _); [|discriminate].
  injection Hk as <-.
  destruct (dfs_add _ _ _ _ _) as [[[kbuf1 kslots1] nproc1]| |] eqn:Hwalk;
    cbn [bind]; try discriminate.
  apply dfs_add_ret in Hwalk as (_ & Htot & Hcount & _).
  assert (forall b, (to_int (copy_to_user b (kslots1 * sizeof_prinfo sys)) <? 0)
                    = false) as Hrval.
  { intros b. apply rval_not_negative. nia. }
  rewrite !Hrval. unfold put_user.
  destruct (ui_writable unr); cbn [Z.ltb Z.compare Z.opp EFAULT];
    intros [= <-] _; cbn [retval nr_stored].
  - split; [split; [unfold EFAULT; lia|discriminate]|].
    split; [intros _; split; [lia|eexists; reflexivity]|].
    intros ubuf'. rewrite Hrval. eexists. split; [reflexivity|]. split; reflexivity.
  - split; [split; reflexivity|].
    split; [discriminate|].
    intros ubuf'. rewrite Hrval. eexists. split; [reflexivity|]. split; reflexivity.
Qed.

End CopyCheck.

Lemma copy_check_never_fires_witness :
  exists res,
    sys_ptree [] 4 (machine scenario) (Some (room_for 0)) (Some (count_of 10))
    = Ret res /\
    (retval res = - EFAULT <-> ui_writable (count_of 10) = false) /\
    (ui_writable (count_of 10) = true ->
     1 <= retval res /\ is_Some (nr_stored res)) /\
    forall ubuf',
      exists res',
        sys_ptree [] 4 (machine scenario) (Some ubuf') (Some (count_of 10))
        = Ret res' /\
        retval res' = retval res /\
        nr_stored res' = nr_stored res.
Proof.
  eexists. split; [vm_compute; reflexivity|].
  eapply (copy_check_never_fires [] 4 (machine scenario) (room_for 0)
            (count_of 10) 10).
  - reflexivity.
  - simpl. lia.
  - simpl. unfold INT_MAX. lia.
  - vm_compute. reflexivity.
  - reflexivity.
Defined.

(** C5 at a caller whose buffer takes no byte: of the 352 bytes of the
    four records none is copied, and the call returns the count 4 and
    stores 4 through [nr] instead of returning [-EFAULT]. *)
Theorem copy_failure_unreported :
  exists res,
    sys_ptree [] 4 (machine scenario) (Some (room_for 0)) (Some (count_of 10))
    = Ret res /\
    copy_to_user (room_for 0) (4 * 88) = 352 /\
    copied res = [] /\
    retval res = 4 /\
    nr_stored res = Some 4.
Proof.
  eexists. split; [vm_compute; reflexivity|]. repeat split; reflexivity.
Qed.

(** ** Pre-order as a chain of successors *)

(** Induction on trees, with the property for all children. *)
Lemma tree_ind (P : tree -> Prop) :
  (forall info ks, Forall P ks -> P (Node info ks)) -> forall t, P t.
Proof.
  intros step.
  fix IH 1. intros [info ks]. apply step.
  induction ks as [|k ks IHks]; constructor; [apply IH|exact IHks].
Qed.

Lemma preorder_unfold info ks p :
  preorder (Node info ks) p = p :: preorder_kids ks p O.
Proof.
  simpl. f_equal. generalize O.
  induction ks as [|k ks IH]; intros i; simpl; [reflexivity|].
  rewrite IH. reflexivity.
Qed.

Lemma follows_app succ l1 y l2 e :
  follows succ l1 (Some y) -> follows succ (y :: l2) e ->
  follows succ (l1 ++ y :: l2) e.
Proof.
  induction l1 as [|x l1 IH]; simpl; [contradiction|].
  destruct l1 as [|x' l1]; simpl in *.
  - intros Hx Hy. split; assumption.
  - intros [Hx Hrest] Hy. split; [exact Hx|]. apply IH; assumption.
Qed.

Lemma follows_cons succ x y l e :
  succ x = Some y -> follows succ (y :: l) e -> follows succ (x :: y :: l) e.
Proof. intros Hx Hy. split; assumption. Qed.

Lemma drop_cons_inv {A} (l : list A) i k rest :
  drop i l = k :: rest ->
  l !! i = Some k /\ drop (S i) l = rest /\ length l = (i + S (length rest))%nat.
Proof.
  intros Hd. split; [|split].
  - rewrite <- (Nat.add_0_r i), <- lookup_drop, Hd. reflexivity.
  - replace (S i) with (i + 1)%nat by lia. rewrite <- drop_drop, Hd. reflexivity.
  - assert (length (drop i l) = S (length rest)) as Hl by (rewrite Hd; reflexivity).
    rewrite length_drop in Hl. lia.
Qed.

(** The pre-order of a subtree lists tasks of the tree, each followed by
    its successor, and is left towards [after]. *)
Lemma preorder_follows t :
  forall s p,
    subtree t p = Some s ->
    Forall (fun x => is_Some (subtree t x)) (preorder s p) /\
    follows (successor t) (preorder s p) (after t p).
Proof.
  induction s as [info ks IHks] using tree_ind. intros p Hp.
  rewrite preorder_unfold.
  assert (nkids t p = length ks) as Hn by (unfold nkids; rewrite Hp; reflexivity).
  assert (forall ks' i,
             drop i ks = ks' -> ks' <> [] ->
             Forall (fun x => is_Some (subtree t x)) (preorder_kids ks' p i) /\
             follows (successor t) (preorder_kids ks' p i) (after t p) /\
             exists l, preorder_kids ks' p i = (i :: p) :: l) as Hkids.
  { intros ks'. induction ks' as [|k rest IHrest]; intros i Hd Hne;
      [contradiction|].
    apply drop_cons_inv in Hd as (Hk & Hd & Hlen).
    assert (subtree t (i :: p) = Some k) as Hsub by (simpl; rewrite Hp; exact Hk).
    rewrite Forall_lookup in IHks.
    destruct (IHks i k Hk (i :: p) Hsub) as [Hvalid Hfol].
    simpl preorder_kids.
    assert (exists l, preorder k (i :: p) = (i :: p) :: l) as [l Hl].
    { destruct k as [ki kks]. rewrite preorder_unfold. eauto. }
    simpl after in Hfol. rewrite Hn, Hlen in Hfol.
    destruct rest as [|k2 rest]; simpl length in Hfol.
    - simpl. rewrite app_nil_r.
      rewrite bool_decide_eq_false_2 in Hfol by lia.
      split; [exact Hvalid|]. split; [exact Hfol|]. eauto.
    - rewrite bool_decide_eq_true_2 in Hfol by lia.
      destruct (IHrest (S i) Hd) as (Hvalid' & Hfol' & l' & Hl');
        [discriminate|].
      split; [apply Forall_app; split; assumption|].
      split.
      + rewrite Hl'. apply follows_app; [exact Hfol|].
        rewrite <- Hl'. exact Hfol'.
      + rewrite Hl. simpl. eauto. }
  destruct ks as [|k ks'] eqn:Hks.
  - simpl. split.
    + constructor; [rewrite Hp; eauto|constructor].
    + unfold successor. rewrite Hn. reflexivity.
  - destruct (Hkids (k :: ks') O) as (Hvalid & Hfol & l & Hl);
      [reflexivity|discriminate|].
    split.
    + constructor; [rewrite Hp; eauto|exact Hvalid].
    + rewrite Hl. apply follows_cons; [|rewrite <- Hl; exact Hfol].
      unfold successor. rewrite Hn. reflexivity.
Qed.

(** ** One step of the walk in the image of a tree *)

Lemma load_list_children t p s :
  subtree t p = Some s ->
  load_list (image t) (ListPtr p children_of)
  = Ret (children_head p (length (kids_of s))).
Proof.
  intros Hs. unfold load_list. cbn [lp_task lp_member].
  rewrite (load_image _ _ _ Hs). reflexivity.
Qed.

Lemma load_list_sibling t p s :
  subtree t p = Some s ->
  load_list (image t) (ListPtr p sibling_of) = Ret (sibling_link t p).
Proof.
  intros Hs. unfold load_list. cbn [lp_task lp_member].
  rewrite (load_image _ _ _ Hs). reflexivity.
Qed.

Lemma list_empty_leaf t p s :
  subtree t p = Some s -> kids_of s = [] ->
  list_empty (image t) (ListPtr p children_of) = Ret true.
Proof.
  intros Hs Hk. unfold list_empty. rewrite (load_list_children _ _ _ Hs), Hk.
  simpl. settle_heads. reflexivity.
Qed.

Lemma get_first_list_head_image t p s :
  subtree t p = Some s ->
  get_first_list_head (image t) p = Ret (ListPtr (tail p) children_of).
Proof.
  intros Hs. unfold get_first_list_head. rewrite (load_image _ _ _ Hs). reflexivity.
Qed.

Lemma list_is_last_sibling t p s head :
  subtree t p = Some s ->
  list_is_last (image t) (ListPtr p sibling_of) head
  = Ret (bool_decide (next (sibling_link t p) = head)).
Proof.
  intros Hs. unfold list_is_last. rewrite (load_list_sibling _ _ _ Hs). reflexivity.
Qed.

Lemma list_first_entry_sibling t p s :
  subtree t p = Some s ->
  list_first_entry (image t) (ListPtr p sibling_of) sibling_of
  = list_entry (next (sibling_link t p)) sibling_of.
Proof.
  intros Hs. unfold list_first_entry. rewrite (load_list_sibling _ _ _ Hs). reflexivity.
Qed.

Lemma next_sibling_link_root t :
  next (sibling_link t []) = ListPtr [] sibling_of.
Proof. reflexivity. Qed.

Lemma next_sibling_link_elder t i q :
  youngest t (i :: q) = false ->
  next (sibling_link t (i :: q)) = ListPtr (S i :: q) sibling_of.
Proof.
  simpl. intros Hy. apply negb_false_iff in Hy. rewrite Hy. reflexivity.
Qed.

Lemma next_sibling_link_youngest t i q :
  youngest t (i :: q) = true ->
  next (sibling_link t (i :: q)) = ListPtr q children_of.
Proof.
  simpl. intros Hy. apply negb_true_iff in Hy. rewrite Hy. reflexivity.
Qed.

Lemma after_elder t i q :
  youngest t (i :: q) = false -> after t (i :: q) = Some (S i :: q).
Proof.
  simpl. intros Hy. apply negb_false_iff in Hy. rewrite Hy. reflexivity.
Qed.

Lemma after_youngest t i q :
  youngest t (i :: q) = true -> after t (i :: q) = after t q.
Proof.
  simpl. intros Hy. apply negb_true_iff in Hy. rewrite Hy. reflexivity.
Qed.

Lemma cons_neq_self {A} (x : A) (l : list A) : l <> x :: l.
Proof. intros Heq. apply (f_equal length) in Heq. simpl in Heq. lia. Qed.

(** The inner loop leaves a task that is not the youngest child of the
    task [list] belongs to where it is. *)
Lemma climb_stays t budget list q s :
  subtree t q = Some s ->
  next (sibling_link t q) <> list ->
  climb [] (image t) (S budget) list q = Ret q.
Proof.
  intros Hs Hne. simpl. rewrite (list_is_last_sibling _ _ _ _ Hs).
  rewrite bool_decide_eq_false_2 by exact Hne. reflexivity.
Qed.

(** From a youngest child it goes one task up, and no further: [list] is
    still the head it was before. *)
Lemma climb_once t budget j r s :
  subtree t (j :: r) = Some s ->
  youngest t (j :: r) = true ->
  climb [] (image t) (S (S budget)) (ListPtr r children_of) (j :: r) = Ret r.
Proof.
  intros Hs Hy.
  destruct (subtree_tail _ _ _ Hs) as [sr Hr]. cbn [tail] in Hr.
  cbn [climb]. rewrite (list_is_last_sibling _ _ _ _ Hs).
  rewrite (next_sibling_link_youngest _ _ _ Hy). cbn [bind].
  rewrite bool_decide_eq_true_2 by reflexivity.
  rewrite bool_decide_eq_false_2 by discriminate. cbn [andb negb].
  rewrite (load_image _ _ _ Hs). cbn [bind real_parent tail].
  rewrite (list_is_last_sibling _ _ _ _ Hr).
  rewrite bool_decide_eq_false_2; [reflexivity|].
  destruct r as [|k u].
  - discriminate.
  - destruct (youngest t (k :: u)) eqn:Hk.
    + rewrite (next_sibling_link_youngest _ _ _ Hk).
      intros [= Hu]. exact (cons_neq_self _ _ Hu).
    + rewrite (next_sibling_link_elder _ _ _ Hk). discriminate.
Qed.

Lemma list_entry_sibling (q : path) :
  list_entry (ListPtr q sibling_of) sibling_of = Ret q.
Proof. reflexivity. Qed.

Lemma list_entry_children (q : path) :
  list_entry (ListPtr q children_of) sibling_of = Fault.
Proof. reflexivity. Qed.

(** The walk at a childless task other than the root: the steps up to
    the point where the next task is taken from the [sibling] member of
    [a], the task the inner loop stopped at. *)
Lemma dfs_next_leaf t budget i q s a :
  subtree t (i :: q) = Some s -> kids_of s = [] ->
  youngest t (i :: q) = true ->
  is_Some (subtree t a) ->
  climb [] (image t) budget (ListPtr (tail q) children_of) q = Ret a ->
  dfs_next [] (image t) budget (i :: q)
  = match next (sibling_link t a) with
    | ListPtr c sibling_of => Ret (match c with [] => None | _ => Some c end)
    | ListPtr _ children_of => Fault
    end.
Proof.
  intros Hs Hk Hy [sa Ha] Hclimb.
  destruct (subtree_tail _ _ _ Hs) as [sq Hq]. cbn [tail] in Hq.
  unfold dfs_next.
  rewrite (list_empty_leaf _ _ _ Hs Hk). cbn [bind negb].
  rewrite (get_first_list_head_image _ _ _ Hs). cbn [bind tail].
  rewrite (list_is_last_sibling _ _ _ _ Hs).
  rewrite (next_sibling_link_youngest _ _ _ Hy). cbn [bind].
  rewrite bool_decide_eq_true_2 by reflexivity. cbn [negb].
  rewrite (load_image _ _ _ Hs). cbn [bind real_parent tail].
  rewrite (get_first_list_head_image _ _ _ Hq). cbn [bind].
  rewrite Hclimb. cbn [bind].
  rewrite (list_first_entry_sibling _ _ _ Ha).
  destruct (next (sibling_link t a)) as [c [|]]; [reflexivity|].
  destruct c; reflexivity.
Qed.

(** At a childless task that is not the root and not at the end of a
    deep tail the walk goes on to the pre-order successor, or stops where
    there is none. *)
Lemma dfs_next_after t budget p s :
  subtree t p = Some s -> kids_of s = [] ->
  p <> [] -> deep_tail t p = false ->
  dfs_next [] (image t) (S (S budget)) p = Ret (after t p).
Proof.
  intros Hs Hk Hp Hdeep.
  destruct p as [|i q]; [contradiction|].
  destruct (subtree_tail _ _ _ Hs) as [sq Hq]. cbn [tail] in Hq.
  destruct (youngest t (i :: q)) eqn:Hi.
  2:{ (* a next sibling *)
    rewrite (after_elder _ _ _ Hi).
    unfold dfs_next.
    rewrite (list_empty_leaf _ _ _ Hs Hk). cbn [bind negb].
    rewrite (get_first_list_head_image _ _ _ Hs). cbn [bind tail].
    rewrite (list_is_last_sibling _ _ _ _ Hs).
    rewrite (next_sibling_link_elder _ _ _ Hi). cbn [bind].
    rewrite bool_decide_eq_false_2 by discriminate. cbn [negb].
    rewrite (list_first_entry_sibling _ _ _ Hs).
    rewrite (next_sibling_link_elder _ _ _ Hi). reflexivity. }
  rewrite (after_youngest _ _ _ Hi).
  destruct q as [|j r].
  { (* a child of the root *)
    rewrite (dfs_next_leaf t _ i [] s [] Hs Hk Hi); [reflexivity|eauto|].
    apply (climb_stays _ _ _ _ _ Hq). discriminate. }
  destruct (youngest t (j :: r)) eqn:Hj.
  2:{ (* the parent has a next sibling *)
    rewrite (after_elder _ _ _ Hj).
    rewrite (dfs_next_leaf t _ i (j :: r) s (j :: r) Hs Hk Hi); [|eauto|].
    - rewrite (next_sibling_link_elder _ _ _ Hj). reflexivity.
    - apply (climb_stays _ _ _ _ _ Hq).
      rewrite (next_sibling_link_elder _ _ _ Hj). discriminate. }
  rewrite (after_youngest _ _ _ Hj).
  destruct (subtree_tail _ _ _ Hq) as [sr Hr]. cbn [tail] in Hr.
  rewrite (dfs_next_leaf t _ i (j :: r) s r Hs Hk Hi);
    [|eauto|apply (climb_once _ _ _ _ _ Hq Hj)].
  destruct r as [|k u]; [reflexivity|].
  destruct (youngest t (k :: u)) eqn:Hk'.
  - (* a deep tail *)
    simpl in Hdeep. simpl in Hi, Hj, Hk'. rewrite Hi, Hj, Hk' in Hdeep.
    discriminate.
  - rewrite (after_elder _ _ _ Hk'), (next_sibling_link_elder _ _ _ Hk').
    reflexivity.
Qed.

(** At the end of a deep tail the walk takes a list entry from the
    [children] head of a task: it leaves the tasks. *)
Lemma dfs_next_deep_tail t budget p s :
  subtree t p = Some s -> kids_of s = [] ->
  deep_tail t p = true ->
  dfs_next [] (image t) (S (S budget)) p = Fault.
Proof.
  intros Hs Hk Hdeep.
  destruct p as [|i [|j [|k u]]]; try discriminate.
  simpl in Hdeep. apply andb_true_iff in Hdeep as [Hdeep Hk'].
  apply andb_true_iff in Hdeep as [Hi Hj].
  change (youngest t (i :: j :: k :: u) = true) in Hi.
  change (youngest t (j :: k :: u) = true) in Hj.
  change (youngest t (k :: u) = true) in Hk'.
  destruct (subtree_tail _ _ _ Hs) as [sq Hq]. cbn [tail] in Hq.
  destruct (subtree_tail _ _ _ Hq) as [sr Hr]. cbn [tail] in Hr.
  rewrite (dfs_next_leaf t _ i (j :: k :: u) s (k :: u) Hs Hk Hi);
    [|eauto|apply (climb_once _ _ _ _ _ Hq Hj)].
  rewrite (next_sibling_link_youngest _ _ _ Hk'). reflexivity.
Qed.

(** A root without children is its own next task. *)
Lemma dfs_next_lonely_root t budget :
  kids_of t = [] ->
  dfs_next [] (image t) budget [] = Ret (Some []).
Proof.
  intros Hk. unfold dfs_next.
  rewrite (list_empty_leaf t [] t eq_refl Hk). cbn [bind negb].
  rewrite (get_first_list_head_image t [] t eq_refl). cbn [bind tail].
  rewrite (list_is_last_sibling t [] t _ eq_refl). reflexivity.
Qed.

(** ** Trees without deep tails *)

Lemma tail_depth_last info ks :
  tail_depth (Node info ks)
  = match last ks with
    | Some k => S (tail_depth k)
    | None => O
    end.
Proof.
  simpl. induction ks as [|k ks IH]; [reflexivity|].
  destruct ks as [|k' ks]; [reflexivity|]. exact IH.
Qed.

Lemma shallow_tails_subtree t :
  shallow_tails t = true ->
  forall p s, subtree t p = Some s -> shallow_tails s = true.
Proof.
  intros Ht p. induction p as [|i q IH]; intros s Hs.
  - injection Hs as <-. exact Ht.
  - apply subtree_cons in Hs as (sq & Hq & Hi).
    specialize (IH sq Hq). destruct sq as [info ks]. simpl in IH, Hi.
    apply andb_true_iff in IH as [_ Hall].
    rewrite forallb_forall in Hall. apply Hall.
    apply list_elem_of_In. eapply list_elem_of_lookup_2. exact Hi.
Qed.

Lemma youngest_last t i q s sq :
  subtree t q = Some sq -> subtree t (i :: q) = Some s ->
  youngest t (i :: q) = true ->
  last (kids_of sq) = Some s.
Proof.
  intros Hq Hs Hy. simpl in Hs. rewrite Hq in Hs.
  unfold youngest, nkids in Hy. rewrite Hq in Hy.
  apply negb_true_iff, bool_decide_eq_false_1 in Hy.
  pose proof (lookup_lt_Some _ _ _ Hs) as Hlt.
  rewrite last_lookup. replace (pred (length (kids_of sq))) with i by lia.
  exact Hs.
Qed.

Lemma tail_depth_youngest t i q s sq :
  subtree t q = Some sq -> subtree t (i :: q) = Some s ->
  youngest t (i :: q) = true ->
  tail_depth sq = S (tail_depth s).
Proof.
  intros Hq Hs Hy. pose proof (youngest_last _ _ _ _ _ Hq Hs Hy) as Hlast.
  destruct sq as [info ks]. rewrite tail_depth_last. simpl in Hlast.
  rewrite Hlast. reflexivity.
Qed.

Lemma tail_depth_shallow s : shallow_tails s = true -> (tail_depth s <= 2)%nat.
Proof.
  destruct s as [info ks]. cbn [shallow_tails]. intros Hs.
  apply andb_true_iff in Hs as [Hd _]. apply Nat.leb_le in Hd. exact Hd.
Qed.

(** A tree with shallow tails has no deep tail. *)
Lemma shallow_tails_no_deep_tail t p :
  shallow_tails t = true -> is_Some (subtree t p) -> deep_tail t p = false.
Proof.
  intros Ht [s Hs].
  destruct (deep_tail t p) eqn:Hdeep; [exfalso|reflexivity].
  destruct p as [|i [|j [|k u]]]; try discriminate.
  simpl in Hdeep. apply andb_true_iff in Hdeep as [Hdeep Hk].
  apply andb_true_iff in Hdeep as [Hi Hj].
  change (youngest t (i :: j :: k :: u) = true) in Hi.
  change (youngest t (j :: k :: u) = true) in Hj.
  change (youngest t (k :: u) = true) in Hk.
  destruct (subtree_tail _ _ _ Hs) as [sj Hsj]. cbn [tail] in Hsj.
  destruct (subtree_tail _ _ _ Hsj) as [sk Hsk]. cbn [tail] in Hsk.
  destruct (subtree_tail _ _ _ Hsk) as [su Hsu]. cbn [tail] in Hsu.
  pose proof (tail_depth_youngest _ _ _ _ _ Hsj Hs Hi) as H1.
  pose proof (tail_depth_youngest _ _ _ _ _ Hsk Hsj Hj) as H2.
  pose proof (tail_depth_youngest _ _ _ _ _ Hsu Hsk Hk) as H3.
  pose proof (tail_depth_shallow _ (shallow_tails_subtree _ Ht _ _ Hsu)) as Hle.
  lia.
Qed.

(** In a tree with shallow tails whose root has children, every task is
    left for its pre-order successor. *)
Lemma dfs_next_successor t budget p :
  kids_of t <> [] -> shallow_tails t = true ->
  is_Some (subtree t p) ->
  dfs_next [] (image t) (S (S budget)) p = Ret (successor t p).
Proof.
  intros Hroot Ht [s Hs]. unfold successor, nkids. rewrite Hs.
  destruct (kids_of s) as [|k ks] eqn:Hk.
  - simpl. apply (dfs_next_after _ _ _ _ Hs Hk).
    + intros ->. injection Hs as <-. contradiction.
    + apply shallow_tails_no_deep_tail; [exact Ht|eauto].
  - simpl. apply (dfs_next_descend _ _ _ _ Hs). rewrite Hk. discriminate.
Qed.

(** A chain of successors the walk follows is what it visits. *)
Lemma visits_follows (mem : memory path) budget succ :
  forall l x fuel,
    follows succ (x :: l) None ->
    Forall (fun y => dfs_next [] mem budget y = Ret (succ y)) (x :: l) ->
    (length (x :: l) <= fuel)%nat ->
    visits [] mem budget fuel x = Ret (x :: l).
Proof.
  induction l as [|y l IH]; intros x fuel Hfol Hall Hfuel;
    (destruct fuel as [|fuel]; [simpl in Hfuel; lia|]);
    apply Forall_cons in Hall as [Hx Hall]; simpl visits; rewrite Hx.
  - simpl in Hfol. rewrite Hfol. reflexivity.
  - destruct Hfol as [Hsucc Hfol]. rewrite Hsucc. cbn [bind].
    rewrite (IH y fuel Hfol Hall); [reflexivity|]. simpl in *. lia.
Qed.

(** The walk over a tree with shallow tails whose root has children
    visits its tasks in pre-order and stops. *)
Lemma visits_preorder t budget fuel :
  kids_of t <> [] -> shallow_tails t = true ->
  (node_count t <= fuel)%nat ->
  visits [] (image t) (S (S budget)) fuel [] = Ret (preorder t []).
Proof.
  intros Hroot Ht Hfuel.
  destruct (preorder_follows t t [] eq_refl) as [Hvalid Hfol].
  unfold node_count in Hfuel.
  destruct t as [info ks]. rewrite preorder_unfold in *.
  apply visits_follows with (succ := successor (Node info ks)).
  - exact Hfol.
  - eapply Forall_impl; [exact Hvalid|].
    intros p Hp. apply dfs_next_successor; assumption.
  - exact Hfuel.
Qed.

(** ** From the tasks visited to the buffer filled *)

Lemma buffer_with_length n k recs :
  (k <= n)%nat -> length (buffer_with n k recs) = n.
Proof.
  intros Hk. unfold buffer_with.
  rewrite length_app, length_map, length_replicate, length_take. lia.
Qed.

Lemma buffer_with_store n k recs r :
  (length recs < k <= n)%nat ->
  <[length recs := Some r]> (buffer_with n k recs)
  = buffer_with n k (recs ++ [r]).
Proof.
  intros Hk. unfold buffer_with.
  rewrite take_ge by lia.
  rewrite (take_ge (recs ++ [r])) by (rewrite length_app; simpl; lia).
  rewrite length_app. simpl length.
  replace (length recs) with (length (map Some recs) + 0)%nat at 1
    by (rewrite length_map; lia).
  rewrite insert_app_r.
  destruct (n - length recs)%nat as [|m] eqn:Hm; [lia|].
  replace (n - (length recs + 1))%nat with m by lia.
  rewrite map_app, <- app_assoc. reflexivity.
Qed.

Lemma buffer_with_skip n k recs r :
  (k <= length recs)%nat ->
  buffer_with n k (recs ++ [r]) = buffer_with n k recs.
Proof.
  intros Hk. unfold buffer_with. rewrite take_app_le by exact Hk. reflexivity.
Qed.

Section Filling.

Context `{target} {task_ptr : Type} `{EqDecision task_ptr}.

Variable init_task : task_ptr.
Variable mem : memory task_ptr.
Variable rec : task_ptr -> prinfo.

(** Where [store_node] yields the record [rec x] of every task [x]
    visited, the loop leaves the first [k] of these records in the buffer
    and counts all of them. *)
Lemma dfs_loop_visits budget n k :
  (k <= n)%nat ->
  forall fuel l recs cur,
    visits init_task mem budget fuel cur = Ret l ->
    Forall (fun x => store_node mem x = Ret (rec x)) l ->
    Z.of_nat (length recs + length l) <= INT_MAX ->
    dfs_loop init_task mem budget fuel (Z.of_nat k) (buffer_with n k recs)
             (Z.of_nat (length recs)) cur
    = Ret (buffer_with n k (recs ++ map rec l),
           Z.of_nat (length recs + length l)).
Proof.
  intros Hk. induction fuel as [|fuel IH]; intros l recs cur Hv Hall Hmax;
    simpl in Hv; [discriminate|].
  destruct (dfs_next init_task mem budget cur) as [nxt| |] eqn:Hnext;
    simpl in Hv; try discriminate.
  assert (exists rest, l = cur :: rest /\
            match nxt with
            | Some cur' => visits init_task mem budget fuel cur' = Ret rest
            | None => rest = []
            end) as (rest & -> & Hrest).
  { destruct nxt as [cur'|].
    - destruct (visits init_task mem budget fuel cur') as [rest| |];
        simpl in Hv; try discriminate.
      injection Hv as <-. eauto.
    - injection Hv as <-. eauto. }
  apply Forall_cons in Hall as [Hcur Hall].
  simpl length in Hmax.
  assert ((if Z.of_nat (length recs) <? Z.of_nat k
           then store_at mem (buffer_with n k recs) (Z.of_nat (length recs)) cur
           else Ret (buffer_with n k recs))
          = Ret (buffer_with n k (recs ++ [rec cur]))) as Hstore.
  { destruct (Z.of_nat (length recs) <? Z.of_nat k) eqn:Hlt.
    - apply Z.ltb_lt in Hlt. unfold store_at. rewrite Hcur. cbn [bind].
      rewrite buffer_with_length by exact Hk.
      rewrite bool_decide_eq_true_2 by lia.
      rewrite Nat2Z.id, buffer_with_store by lia. reflexivity.
    - apply Z.ltb_ge in Hlt. rewrite buffer_with_skip by lia. reflexivity. }
  cbn [dfs_loop]. rewrite Hstore. cbn [bind].
  unfold int_add. rewrite bool_decide_eq_true_2 by (unfold INT_MIN, INT_MAX in *; lia).
  cbn [bind]. rewrite Hnext. cbn [bind].
  replace (Z.of_nat (length recs) + 1) with (Z.of_nat (length (recs ++ [rec cur])))
    by (rewrite length_app; simpl; lia).
  destruct nxt as [cur'|].
  - rewrite (IH rest (recs ++ [rec cur]) cur' Hrest Hall).
    + rewrite <- app_assoc, length_app. simpl.
      do 2 f_equal. lia.
    + rewrite length_app. simpl. lia.
  - subst rest. simpl. rewrite length_app. reflexivity.
Qed.

Lemma dfs_add_visits fuel n k l :
  (k <= n)%nat ->
  visits init_task mem fuel fuel init_task = Ret l ->
  Forall (fun x => store_node mem x = Ret (rec x)) l ->
  Z.of_nat (length l) <= INT_MAX ->
  dfs_add init_task mem fuel (replicate n None) (Z.of_nat k)
  = Ret (buffer_with n k (map rec l),
         Z.min (Z.of_nat (length l)) (Z.of_nat k),
         Z.of_nat (length l)).
Proof.
  intros Hk Hv Hall Hmax. unfold dfs_add.
  assert (replicate n None = buffer_with n k []) as ->.
  { unfold buffer_with. rewrite take_nil. simpl. rewrite Nat.sub_0_r. reflexivity. }
  change 0 with (Z.of_nat (length (@nil prinfo))).
  rewrite (dfs_loop_visits fuel n k Hk fuel l [] init_task Hv Hall)
    by exact Hmax.
  cbn [bind app length Nat.add].
  destruct (Z.of_nat (length l) <? Z.of_nat k) eqn:Hlt;
    [apply Z.ltb_lt in Hlt|apply Z.ltb_ge in Hlt];
    repeat f_equal; lia.
Qed.

End Filling.

(** ** Snapshots of trees with shallow tails *)

Lemma count_processes_eval {task_ptr : Type} (procs : list task_ptr) :
  forall count,
    0 <= count -> count + Z.of_nat (length procs) <= INT_MAX ->
    count_processes procs count = Ret (count + Z.of_nat (length procs)).
Proof.
  induction procs as [|p procs IH]; intros count Hc Hmax; simpl.
  - f_equal. lia.
  - simpl length in Hmax. unfold int_add.
    rewrite bool_decide_eq_true_2 by (unfold INT_MIN, INT_MAX in *; lia).
    cbn [bind]. rewrite IH by lia. f_equal. lia.
Qed.

Lemma take_buffer_with n k recs :
  (k <= n)%nat -> (k <= length recs)%nat ->
  take k (buffer_with n n recs) = map Some (take k recs).
Proof.
  intros Hn Hk. unfold buffer_with.
  rewrite take_app_le by (rewrite length_map, length_take; lia).
  rewrite firstn_map, take_take. f_equal. f_equal. lia.
Qed.

Lemma node_count_root_with_kids t :
  kids_of t <> [] -> (2 <= node_count t)%nat.
Proof.
  unfold node_count. destruct t as [info [|[ki kks] ks]]; [contradiction|].
  intros _. rewrite preorder_unfold. cbn [preorder_kids].
  rewrite preorder_unfold. simpl. lia.
Qed.

Lemma store_node_preorder `{target} t :
  Forall (fun x => store_node (image t) x = Ret (record_of t x)) (preorder t []).
Proof.
  destruct (preorder_follows t t [] eq_refl) as [Hvalid _].
  eapply Forall_impl; [exact Hvalid|].
  intros p [s Hs]. apply (store_node_image _ _ _ Hs).
Qed.

(** The walk over a tree with shallow tails whose root has children
    returns: it stores the records of the first [k] tasks in pre-order
    and counts all the tasks. *)
Lemma dfs_add_preorder `{target} t fuel n k :
  kids_of t <> [] -> shallow_tails t = true ->
  Z.of_nat (node_count t) <= INT_MAX ->
  (node_count t <= fuel)%nat -> (k <= n)%nat ->
  dfs_add [] (image t) fuel (replicate n None) (Z.of_nat k)
  = Ret (buffer_with n k (map (record_of t) (preorder t [])),
         Z.min (Z.of_nat (node_count t)) (Z.of_nat k),
         Z.of_nat (node_count t)).
Proof.
  intros Hroot Ht Hmax Hfuel Hk.
  pose proof (node_count_root_with_kids t Hroot) as H2.
  destruct fuel as [|[|budget]]; try lia.
  pose proof (visits_preorder t budget (S (S budget)) Hroot Ht Hfuel) as Hv.
  rewrite (dfs_add_visits [] (image t) (record_of t) _ n k _ Hk Hv).
  - reflexivity.
  - apply store_node_preorder.
  - exact Hmax.
Qed.

(** X1: a snapshot of a static tree with shallow tails whose root has
    children: with capacity [c >= 1], room in the caller's buffer and
    memory for the kernel's, the call returns the number of tasks, stores
    [min(c, number of tasks)] through [nr] and hands the caller the
    records of the first [c] tasks in pre-order. *)
Theorem snapshot_preorder `{target} t size ok ubuf unr c fuel :
  kids_of t <> [] -> shallow_tails t = true ->
  Z.of_nat (node_count t) + 14 <= INT_MAX ->
  (node_count t <= fuel)%nat ->
  get_user unr = Some c -> ui_writable unr = true -> 1 <= c ->
  0 < size ->
  ok (Z.min (Z.of_nat (node_count t) + 14) c * size) = true ->
  Z.min c (Z.of_nat (node_count t)) * size <= ub_writable ubuf ->
  exists res,
    sys_ptree [] fuel (static_system t size ok) (Some ubuf) (Some unr) = Ret res /\
    retval res = Z.of_nat (node_count t) /\
    nr_stored res = Some (Z.min c (Z.of_nat (node_count t))) /\
    copied res
    = map Some (take (Z.to_nat c) (map (record_of t) (preorder t []))).
Proof.
  intros Hroot Ht Hmax Hfuel Hget Hw Hc Hsize Hok Hroom.
  pose proof (node_count_root_with_kids t Hroot) as H2.
  set (nc := Z.of_nat (node_count t)) in *.
  set (recs := map (record_of t) (preorder t [])).
  assert (length recs = node_count t) as Hrecs
    by (unfold recs; rewrite length_map; reflexivity).
  unfold sys_ptree. rewrite Hget.
  assert ((c <? 1) = false) as -> by (apply Z.ltb_ge; lia).
  assert (get_num_of_processes (at_probe (static_system t size ok))
          = Ret (nc - 1)) as ->.
  { unfold get_num_of_processes.
    cbn [static_system at_probe static_kernel for_each_process].
    assert (Z.of_nat (length (tail (preorder t []))) = nc - 1) as Hlen.
    { destruct (preorder t []) as [|x l] eqn:Hl; unfold nc, node_count in *;
        rewrite Hl in *; simpl in *; lia. }
    rewrite count_processes_eval; [f_equal; lia|lia|lia]. }
  cbn [bind]. unfold int_add, EXTRA_SLOTS.
  rewrite bool_decide_eq_true_2 by (unfold INT_MIN, INT_MAX in *; lia).
  cbn [bind]. rewrite MIN_min.
  replace (nc - 1 + 15) with (nc + 14) by lia.
  set (kslots := Z.min (nc + 14) c).
  unfold kmalloc_array. cbn [static_system kmalloc_ok sizeof_prinfo at_walk
                               static_kernel tasks].
  assert ((0 <=? kslots) = true) as -> by (apply Z.leb_le; lia).
  fold kslots in Hok. rewrite Hok. cbn [andb].
  assert (dfs_add [] (image t) fuel (replicate (Z.to_nat kslots) None) kslots
          = Ret (buffer_with (Z.to_nat kslots) (Z.to_nat kslots) recs,
                 Z.min nc kslots, nc)) as ->.
  { pose proof (dfs_add_preorder t fuel (Z.to_nat kslots) (Z.to_nat kslots)
                  Hroot Ht) as Hwalk.
    rewrite Z2Nat.id in Hwalk by lia. apply Hwalk; [lia|exact Hfuel|lia]. }
  cbn [bind].
  assert (Z.min nc kslots = Z.min c nc) as -> by lia.
  set (k := Z.min c nc) in *.
  assert (copy_to_user ubuf (k * size) = 0) as Hleft
    by (unfold copy_to_user; lia).
  rewrite Hleft. change (to_int 0 <? 0) with false. cbv iota.
  unfold put_user. rewrite Hw. change (0 <? 0) with false. cbv iota.
  eexists. split; [reflexivity|]. simpl.
  split; [reflexivity|]. split; [reflexivity|].
  rewrite Z.sub_0_r, Z.div_mul by lia.
  rewrite take_buffer_with by lia.
  f_equal. apply list_eq. intros i.
  rewrite !lookup_take. repeat case_decide; try reflexivity; try lia.
  symmetry. apply lookup_ge_None. lia.
Qed.

Lemma snapshot_preorder_witness :
  exists res,
    sys_ptree [] 4 (machine scenario) (Some (room_for 1000)) (Some (count_of 2))
    = Ret res /\
    retval res = 4 /\
    nr_stored res = Some 2 /\
    copied res = [Some (record_of scenario []); Some (record_of scenario [O])].
Proof.
  apply (snapshot_preorder scenario 88 (fun _ => true) (room_for 1000)
           (count_of 2) 2 4);
    try reflexivity; try discriminate; vm_compute; congruence.
Defined.

(** ** Truncation *)

Section Truncation.

Context `{target} {task_ptr : Type} `{EqDecision task_ptr}.

Variable init_task : task_ptr.
Variable mem : memory task_ptr.

Lemma dfs_loop_prefix budget n k :
  k <= n ->
  forall fuel buf it cur buf' it',
    0 <= it ->
    dfs_loop init_task mem budget fuel n buf it cur = Ret (buf', it') ->
    dfs_loop init_task mem budget fuel k (take (Z.to_nat k) buf) it cur
    = Ret (take (Z.to_nat k) buf', it').
Proof.
  intros Hkn. induction fuel as [|fuel IH]; intros buf it cur buf' it' Hit Hrun;
    simpl in Hrun; [discriminate|].
  destruct (if it <? n then store_at mem buf it cur else Ret buf)
    as [buf1| |] eqn:Hstore; simpl in Hrun; try discriminate.
  assert ((if it <? k then store_at mem (take (Z.to_nat k) buf) it cur
           else Ret (take (Z.to_nat k) buf))
          = Ret (take (Z.to_nat k) buf1)) as Hstore'.
  { destruct (it <? k) eqn:Hk.
    - apply Z.ltb_lt in Hk.
      assert ((it <? n) = true) as Hn by (apply Z.ltb_lt; lia).
      rewrite Hn in Hstore.
      apply store_at_ret in Hstore as (r & Hr & Hi & ->).
      unfold store_at. rewrite Hr. cbn [bind].
      rewrite bool_decide_eq_true_2 by (rewrite length_take; lia).
      rewrite take_insert_lt by lia. reflexivity.
    - apply Z.ltb_ge in Hk. destruct (it <? n) eqn:Hn.
      + apply store_at_ret in Hstore as (r & Hr & Hi & ->).
        rewrite take_insert_ge by lia. reflexivity.
      + injection Hstore as <-. reflexivity. }
  cbn [dfs_loop]. rewrite Hstore'. cbn [bind].
  destruct (int_add it 1) as [it1| |] eqn:Hadd; simpl in Hrun; try discriminate.
  cbn [bind]. pose proof (int_add_ret _ _ _ Hadd) as [-> _].
  destruct (dfs_next init_task mem budget cur) as [[nxt|]| |];
    simpl in Hrun; try discriminate; cbn [bind].
  - apply IH; [lia|exact Hrun].
  - injection Hrun as <- <-. reflexivity.
Qed.

(** X2: where the walk with capacity [n] returns, the walk with a capacity
    [k <= n] returns the same count and the first [k] slots of its
    buffer. *)
Theorem dfs_add_prefix fuel buf n k b count total :
  0 <= k <= n ->
  dfs_add init_task mem fuel buf n = Ret (b, count, total) ->
  dfs_add init_task mem fuel (take (Z.to_nat k) buf) k
  = Ret (take (Z.to_nat k) b, Z.min total k, total).
Proof.
  intros Hk. unfold dfs_add.
  destruct (dfs_loop init_task mem fuel fuel n buf 0 init_task)
    as [[buf' it']| |] eqn:Hrun; simpl; try discriminate.
  intros [= <- <- <-].
  rewrite (dfs_loop_prefix fuel n k (proj2 Hk) fuel buf 0 init_task buf' it')
    by (try lia; exact Hrun).
  cbn [bind]. do 2 f_equal.
  destruct (it' <? k) eqn:Hlt;
    [apply Z.ltb_lt in Hlt|apply Z.ltb_ge in Hlt]; f_equal; lia.
Qed.

End Truncation.

Lemma dfs_add_prefix_witness :
  exists b count total,
    dfs_add [] (image scenario) 4 (replicate 4 None) 4 = Ret (b, count, total) /\
    dfs_add [] (image scenario) 4 (take (Z.to_nat 2) (replicate 4 None)) 2
    = Ret (take (Z.to_nat 2) b, Z.min total 2, total).
Proof.
  eexists _, _, _. split; [vm_compute; reflexivity|].
  apply (dfs_add_prefix [] (image scenario) 4 (replicate 4 None) 4 2 _ 4 4).
  - lia.
  - vm_compute. reflexivity.
Defined.

(** ** Where the walk does not return *)

Section NoReturn.

Context `{target} {task_ptr : Type} `{EqDecision task_ptr}.

Variable init_task : task_ptr.
Variable mem : memory task_ptr.

(** A loop that returns has followed the cursor to the end. *)
Lemma dfs_loop_ret_visits budget fuel knr :
  forall buf it cur r,
    dfs_loop init_task mem budget fuel knr buf it cur = Ret r ->
    exists l, visits init_task mem budget fuel cur = Ret l.
Proof.
  induction fuel as [|fuel IH]; intros buf it cur r Hrun; simpl in Hrun;
    [discriminate|].
  destruct (if it <? knr then store_at mem buf it cur else Ret buf)
    as [buf1| |]; simpl in Hrun; try discriminate.
  destruct (int_add it 1) as [it1| |]; simpl in Hrun; try discriminate.
  simpl. destruct (dfs_next init_task mem budget cur) as [[nxt|]| |];
    simpl in *; try discriminate.
  - destruct (IH _ _ _ _ Hrun) as [l ->]. simpl. eauto.
  - eauto.
Qed.

Lemma dfs_add_ret_visits fuel buf knr r :
  dfs_add init_task mem fuel buf knr = Ret r ->
  exists l, visits init_task mem fuel fuel init_task = Ret l.
Proof.
  unfold dfs_add.
  destruct (dfs_loop init_task mem fuel fuel knr buf 0 init_task)
    as [r'| |] eqn:Hrun; simpl; try discriminate.
  intros _. eapply dfs_loop_ret_visits. exact Hrun.
Qed.

End NoReturn.

(** Over a root without children the walk visits the root again and
    again. *)
Lemma visits_lonely_root t budget fuel :
  kids_of t = [] -> visits [] (image t) budget fuel [] = Timeout.
Proof.
  intros Hk. induction fuel as [|fuel IH]; simpl; [reflexivity|].
  rewrite (dfs_next_lonely_root _ _ Hk). cbn [bind]. rewrite IH. reflexivity.
Qed.

(** A chain of successors with a task at which the walk leaves the tasks:
    the walk does not reach the end. *)
Lemma visits_follows_fault (mem : memory path) budget succ :
  forall l x e fuel,
    follows succ (x :: l) e ->
    Forall (fun y => dfs_next [] mem budget y = Ret (succ y) \/
                     dfs_next [] mem budget y = Fault) (x :: l) ->
    Exists (fun y => dfs_next [] mem budget y = Fault) (x :: l) ->
    ((length (x :: l) <= fuel)%nat -> visits [] mem budget fuel x = Fault) /\
    (visits [] mem budget fuel x = Fault \/ visits [] mem budget fuel x = Timeout).
Proof.
  induction l as [|y l IH]; intros x e fuel Hfol Hall Hex;
    (destruct fuel as [|fuel]; [split; [simpl; lia|right; reflexivity]|]);
    apply Forall_cons in Hall as [Hx Hall]; simpl visits.
  - apply Exists_cons in Hex as [Hx'|Hex]; [|inversion Hex].
    rewrite Hx'. split; [reflexivity|left; reflexivity].
  - destruct Hx as [Hx|Hx]; [|rewrite Hx; split; [reflexivity|left; reflexivity]].
    apply Exists_cons in Hex as [Hx'|Hex]; [congruence|].
    destruct Hfol as [Hsucc Hfol]. rewrite Hx, Hsucc. cbn [bind].
    destruct (IH y e fuel Hfol Hall Hex) as [Hfault Hnone].
    split.
    + intros Hlen. rewrite Hfault by (simpl in *; lia). reflexivity.
    + destruct Hnone as [-> | ->]; [left|right]; reflexivity.
Qed.

(** Every task of a tree is in its pre-order. *)
Lemma preorder_kids_elem ks p :
  forall j i k x,
    ks !! i = Some k -> x ∈ preorder k ((j + i)%nat :: p) ->
    x ∈ preorder_kids ks p j.
Proof.
  induction ks as [|k' ks IH]; intros j i k x Hi Hx; [discriminate|].
  simpl. apply elem_of_app. destruct i as [|i]; simpl in Hi.
  - injection Hi as ->. left. rewrite Nat.add_0_r in Hx. exact Hx.
  - right. apply (IH (S j) i k x Hi).
    replace (S j + i)%nat with (j + S i)%nat by lia. exact Hx.
Qed.

Lemma preorder_elem t :
  forall p s x,
    subtree t p = Some s -> x ∈ preorder s p -> x ∈ preorder t [].
Proof.
  induction p as [|i q IH]; intros s x Hs Hx.
  - injection Hs as <-. exact Hx.
  - apply subtree_cons in Hs as (sq & Hq & Hi).
    apply (IH sq x Hq). destruct sq as [info ks].
    rewrite preorder_unfold. apply elem_of_cons. right.
    apply (preorder_kids_elem ks q O i s x Hi). exact Hx.
Qed.

Lemma subtree_in_preorder t p s :
  subtree t p = Some s -> p ∈ preorder t [].
Proof.
  intros Hs. apply (preorder_elem t p s p Hs).
  destruct s as [info ks]. rewrite preorder_unfold. apply elem_of_cons. auto.
Qed.

(** A tree whose tails are not all shallow has a childless task at the
    end of a deep tail. *)
Lemma tail_depth_zero s : tail_depth s = O -> kids_of s = [].
Proof.
  destruct s as [info ks]. rewrite tail_depth_last. simpl.
  destruct (last ks) eqn:Hl; [discriminate|].
  intros _. apply last_None. exact Hl.
Qed.

Lemma tail_depth_succ t q s n :
  subtree t q = Some s -> tail_depth s = S n ->
  exists i k, subtree t (i :: q) = Some k /\ youngest t (i :: q) = true /\
              tail_depth k = n.
Proof.
  intros Hs. destruct s as [info ks]. rewrite tail_depth_last.
  destruct (last ks) as [k|] eqn:Hl; [|discriminate].
  intros [= Hn]. rewrite last_lookup in Hl.
  exists (pred (length ks)), k.
  pose proof (lookup_lt_Some _ _ _ Hl) as Hlt.
  split; [simpl; rewrite Hs; exact Hl|]. split; [|exact Hn].
  unfold youngest, nkids. rewrite Hs. simpl.
  rewrite bool_decide_eq_false_2 by lia. reflexivity.
Qed.

Lemma deep_tail_below t :
  forall n q s,
    subtree t q = Some s -> tail_depth s = (3 + n)%nat ->
    exists p sp, subtree t p = Some sp /\ kids_of sp = [] /\
                 deep_tail t p = true.
Proof.
  induction n as [|n IH]; intros q s Hs Hd.
  - destruct (tail_depth_succ _ _ _ _ Hs Hd) as (i1 & k1 & H1 & Hy1 & Hd1).
    destruct (tail_depth_succ _ _ _ _ H1 Hd1) as (i2 & k2 & H2 & Hy2 & Hd2).
    destruct (tail_depth_succ _ _ _ _ H2 Hd2) as (i3 & k3 & H3 & Hy3 & Hd3).
    exists (i3 :: i2 :: i1 :: q), k3.
    split; [exact H3|]. split; [apply tail_depth_zero; exact Hd3|].
    cbn [deep_tail]. rewrite Hy1, Hy2, Hy3. reflexivity.
  - destruct (tail_depth_succ _ _ _ _ Hs Hd) as (i1 & k1 & H1 & _ & Hd1).
    apply (IH (i1 :: q) k1 H1 Hd1).
Qed.

Lemma forallb_false {A} (f : A -> bool) (l : list A) :
  forallb f l = false -> exists i x, l !! i = Some x /\ f x = false.
Proof.
  induction l as [|a l IH]; simpl; [discriminate|].
  destruct (f a) eqn:Ha; simpl.
  - intros Hl. destruct (IH Hl) as (i & x & Hi & Hx). exists (S i), x. auto.
  - intros _. exists O, a. auto.
Qed.

Lemma not_shallow_tails t :
  forall s q,
    subtree t q = Some s -> shallow_tails s = false ->
    exists q' s', subtree t q' = Some s' /\ (3 <= tail_depth s')%nat.
Proof.
  induction s as [info ks IHks] using tree_ind. intros q Hs Hsh.
  cbn [shallow_tails] in Hsh. apply andb_false_iff in Hsh as [Hd|Hall].
  - apply Nat.leb_gt in Hd. exists q, (Node info ks). split; [exact Hs|lia].
  - apply forallb_false in Hall as (i & k & Hi & Hk).
    rewrite Forall_lookup in IHks.
    apply (IHks i k Hi (i :: q)); [|exact Hk].
    simpl. rewrite Hs. exact Hi.
Qed.

Lemma deep_tail_exists t :
  shallow_tails t = false ->
  exists p sp, subtree t p = Some sp /\ kids_of sp = [] /\ deep_tail t p = true.
Proof.
  intros Hsh.
  destruct (not_shallow_tails t t [] eq_refl Hsh) as (q & s & Hs & Hd).
  apply (deep_tail_below t (tail_depth s - 3) q s Hs). lia.
Qed.

(** Over a tree whose tails are not all shallow the walk leaves the
    tasks. *)
Lemma visits_deep_tail t budget fuel :
  kids_of t <> [] -> shallow_tails t = false ->
  ((node_count t <= fuel)%nat ->
   visits [] (image t) (S (S budget)) fuel [] = Fault) /\
  (visits [] (image t) (S (S budget)) fuel [] = Fault \/
   visits [] (image t) (S (S budget)) fuel [] = Timeout).
Proof.
  intros Hroot Hsh.
  destruct (deep_tail_exists t Hsh) as (p & sp & Hp & Hleaf & Hdeep).
  destruct (preorder_follows t t [] eq_refl) as [Hvalid Hfol].
  pose proof (subtree_in_preorder _ _ _ Hp) as Hin.
  unfold node_count. destruct t as [info ks]. rewrite preorder_unfold in *.
  apply visits_follows_fault with (succ := successor (Node info ks)) (e := None).
  - exact Hfol.
  - eapply Forall_impl; [exact Hvalid|].
    intros x [s Hs]. unfold successor, nkids. rewrite Hs.
    destruct (kids_of s) as [|k ks'] eqn:Hk.
    + destruct (deep_tail (Node info ks) x) eqn:Hx.
      * right. apply (dfs_next_deep_tail _ _ _ _ Hs Hk Hx).
      * left. simpl. apply (dfs_next_after _ _ _ _ Hs Hk); [|exact Hx].
        intros ->. injection Hs as <-. contradiction.
    + left. simpl. apply (dfs_next_descend _ _ _ _ Hs). rewrite Hk. discriminate.
  - apply Exists_exists. exists p. split; [exact Hin|].
    apply (dfs_next_deep_tail _ _ _ _ Hp Hleaf Hdeep).
Qed.

(** X4: over a tree whose root has children and whose tails are not all
    shallow [dfs_add] leaves the tasks, whatever its buffer and capacity. *)
Theorem dfs_add_deep_tail `{target} t fuel buf knr :
  kids_of t <> [] -> shallow_tails t = false ->
  (node_count t <= fuel)%nat ->
  dfs_add [] (image t) fuel buf knr = Fault.
Proof.
  intros Hroot Hsh Hfuel.
  pose proof (node_count_root_with_kids t Hroot) as H2.
  destruct fuel as [|[|budget]]; try lia.
  apply dfs_add_fault.
  apply (proj1 (visits_deep_tail t budget (S (S budget)) Hroot Hsh) Hfuel).
Qed.

Lemma dfs_add_deep_tail_witness :
  dfs_add [] (image session) 6 (replicate 10 None) 10 = Fault.
Proof.
  apply (dfs_add_deep_tail session 6 (replicate 10 None) 10).
  - discriminate.
  - reflexivity.
  - vm_compute. lia.
Defined.

(** X5: over a root without children [dfs_add] does not return: the root is
    visited until the budget, the buffer or the counter is exhausted. *)
Theorem dfs_add_lonely_root `{target} t fuel buf knr :
  kids_of t = [] ->
  dfs_add [] (image t) fuel buf knr = Timeout \/
  dfs_add [] (image t) fuel buf knr = Fault.
Proof.
  intros Hk. destruct (dfs_add [] (image t) fuel buf knr) as [r| |] eqn:Hrun; auto.
  apply dfs_add_ret_visits in Hrun as [l Hl].
  rewrite (visits_lonely_root _ _ _ Hk) in Hl. discriminate.
Qed.

Lemma dfs_add_lonely_root_witness :
  dfs_add [] (image (Node (task 0) [])) 100 (replicate 1 None) 1 = Timeout \/
  dfs_add [] (image (Node (task 0) [])) 100 (replicate 1 None) 1 = Fault.
Proof.
  apply (dfs_add_lonely_root (Node (task 0) []) 100 (replicate 1 None) 1).
  reflexivity.
Defined.

(** X3: the walk over the image of a tree returns exactly when the root has
    children and all tails are shallow. *)
Theorem dfs_add_returns_iff `{target} t n k :
  (k <= n)%nat -> Z.of_nat (node_count t) <= INT_MAX ->
  (exists fuel r,
      dfs_add [] (image t) fuel (replicate n None) (Z.of_nat k) = Ret r)
  <-> kids_of t <> [] /\ shallow_tails t = true.
Proof.
  intros Hk Hmax. split.
  - intros (fuel & r & Hrun).
    destruct (kids_of t) as [|k0 ks] eqn:Hkids.
    { exfalso. apply dfs_add_ret_visits in Hrun as [l Hl].
      rewrite (visits_lonely_root _ _ _ Hkids) in Hl. discriminate. }
    split; [discriminate|].
    destruct (shallow_tails t) eqn:Hsh; [reflexivity|exfalso].
    assert (kids_of t <> []) as Hroot by (rewrite Hkids; discriminate).
    apply dfs_add_ret_visits in Hrun as [l Hl].
    destruct fuel as [|[|budget]].
    + discriminate.
    + simpl in Hl. rewrite (dfs_next_descend t [] t 1%nat eq_refl Hroot) in Hl.
      discriminate.
    + destruct (proj2 (visits_deep_tail t budget (S (S budget)) Hroot Hsh))
        as [Hf|Hf]; rewrite Hf in Hl; discriminate.
  - intros [Hroot Hsh]. exists (node_count t). eexists.
    apply (dfs_add_preorder t _ n k Hroot Hsh Hmax); [lia|exact Hk].
Qed.

Lemma dfs_add_returns_iff_witness :
  (exists fuel r,
      dfs_add [] (image scenario) fuel (replicate 4 None) (Z.of_nat 2) = Ret r)
  <-> kids_of scenario <> [] /\ shallow_tails scenario = true.
Proof.
  apply (dfs_add_returns_iff scenario 4 2).
  - lia.
  - vm_compute. discriminate.
Defined.

(** ** The bookkeeping of the loop over any memory *)

Section Bookkeeping.

Context `{target} {task_ptr : Type} `{EqDecision task_ptr}.

Variable init_task : task_ptr.
Variable mem : memory task_ptr.

(** A loop that returns has counted the tasks the cursor passed, has left
    the slots below its first index as they were, and has stored the
    record of the [j]-th task passed in slot [iterations + j] while that
    index was below [knr]. *)
Lemma dfs_loop_records budget knr :
  forall fuel buf it cur buf' it',
    dfs_loop init_task mem budget fuel knr buf it cur = Ret (buf', it') ->
    0 <= it ->
    exists l,
      visits init_task mem budget fuel cur = Ret l /\
      it' = it + Z.of_nat (length l) /\
      (forall i : nat, Z.of_nat i < it -> buf' !! i = buf !! i) /\
      (forall (j : nat) x,
          l !! j = Some x -> it + Z.of_nat j < knr ->
          exists r, store_node mem x = Ret r /\
                    buf' !! Z.to_nat (it + Z.of_nat j) = Some (Some r)).
Proof.
  induction fuel as [|fuel IH]; intros buf it cur buf' it' Hrun Hit;
    simpl in Hrun; [discriminate|].
  destruct (if it <? knr then store_at mem buf it cur else Ret buf)
    as [buf1| |] eqn:Hstore; simpl in Hrun; try discriminate.
  destruct (int_add it 1) as [it1| |] eqn:Hadd; simpl in Hrun; try discriminate.
  apply int_add_ret in Hadd as [-> _].
  assert ((forall i : nat, Z.of_nat i < it -> buf1 !! i = buf !! i) /\
          (it < knr -> exists r, store_node mem cur = Ret r /\
                                 buf1 !! Z.to_nat it = Some (Some r)))
    as [Hkeep Hcur].
  { destruct (it <? knr) eqn:Hlt.
    - apply store_at_ret in Hstore as (r & Hr & Hi & ->). split.
      + intros i Hlti. apply list_lookup_insert_ne. lia.
      + intros _. exists r. split; [exact Hr|].
        apply list_lookup_insert_eq. lia.
    - apply Z.ltb_ge in Hlt. injection Hstore as <-. split; [reflexivity|lia]. }
  simpl visits.
  destruct (dfs_next init_task mem budget cur) as [[nxt|]| |];
    simpl in Hrun; try discriminate; cbn [bind].
  - destruct (IH _ _ _ _ _ Hrun) as (l & Hl & -> & Hkeep' & Hrec); [lia|].
    rewrite Hl. cbn [bind]. exists (cur :: l).
    split; [reflexivity|]. split; [simpl length; lia|]. split.
    + intros i Hi. rewrite Hkeep' by lia. apply Hkeep. exact Hi.
    + intros [|j] x Hx Hlt; simpl in Hx.
      * injection Hx as <-. rewrite Z.add_0_r in *.
        destruct (Hcur Hlt) as (r & Hr & Hslot). exists r. split; [exact Hr|].
        rewrite Hkeep' by lia. exact Hslot.
      * destruct (Hrec j x Hx) as (r & Hr & Hslot); [lia|].
        exists r. split; [exact Hr|].
        replace (it + Z.of_nat (S j)) with (it + 1 + Z.of_nat j) by lia.
        exact Hslot.
  - injection Hrun as <- <-. exists [cur].
    split; [reflexivity|]. split; [simpl length; lia|]. split; [exact Hkeep|].
    intros [|j] x Hx Hlt; simpl in Hx; [|discriminate].
    injection Hx as <-. rewrite Z.add_0_r in *. exact (Hcur Hlt).
Qed.

(** X11: whatever the memory holds, a [dfs_add] that returns has followed
    the cursor to the end; the value it returns is the number of tasks
    passed, the count it writes back the lesser of that number and the
    capacity, and slot [j] below that count holds the record of the
    [j]-th task passed. *)
Theorem dfs_add_records fuel buf knr b count total :
  dfs_add init_task mem fuel buf knr = Ret (b, count, total) ->
  exists l,
    visits init_task mem fuel fuel init_task = Ret l /\
    total = Z.of_nat (length l) /\
    count = Z.min total knr /\
    forall (j : nat) x,
      l !! j = Some x -> Z.of_nat j < count ->
      exists r, store_node mem x = Ret r /\ b !! j = Some (Some r).
Proof.
  unfold dfs_add.
  destruct (dfs_loop init_task mem fuel fuel knr buf 0 init_task)
    as [[buf' it']| |] eqn:Hrun; simpl; try discriminate.
  intros [= <- <- <-].
  destruct (dfs_loop_records _ _ _ _ _ _ _ _ Hrun) as (l & Hl & -> & _ & Hrec);
    [lia|].
  exists l. split; [exact Hl|]. split; [lia|]. split.
  { destruct (0 + Z.of_nat (length l) <? knr) eqn:Hlt;
      [apply Z.ltb_lt in Hlt|apply Z.ltb_ge in Hlt]; lia. }
  intros j x Hx Hj.
  destruct (Hrec j x Hx) as (r & Hr & Hslot).
  { destruct (0 + Z.of_nat (length l) <? knr) eqn:Hlt;
      [apply Z.ltb_lt in Hlt|]; lia. }
  exists r. split; [exact Hr|].
  rewrite Z.add_0_l, Nat2Z.id in Hslot. exact Hslot.
Qed.

(** X12: with a capacity of zero or less [dfs_add] stores nothing: a call
    that returns hands back the buffer as it was and leaves the capacity
    in [*knr]. *)
Theorem dfs_add_no_capacity fuel buf knr b count total :
  knr <= 0 ->
  dfs_add init_task mem fuel buf knr = Ret (b, count, total) ->
  b = buf /\ count = knr /\ 1 <= total.
Proof.
  intros Hk. unfold dfs_add.
  destruct (dfs_loop init_task mem fuel fuel knr buf 0 init_task)
    as [[buf' it']| |] eqn:Hrun; simpl; try discriminate.
  intros [= <- <- <-].
  assert (forall fuel' budget buf0 it cur buf1 it1,
             0 <= it ->
             dfs_loop init_task mem budget fuel' knr buf0 it cur = Ret (buf1, it1) ->
             buf1 = buf0 /\ it < it1) as Hkeep.
  { clear Hrun. induction fuel' as [|fuel' IH];
      intros budget buf0 it cur buf1 it1 Hit Hrun; simpl in Hrun; [discriminate|].
    assert ((it <? knr) = false) as Hge by (apply Z.ltb_ge; lia).
    rewrite Hge in Hrun. cbn [bind] in Hrun.
    destruct (int_add it 1) as [it2| |] eqn:Hadd; simpl in Hrun; try discriminate.
    apply int_add_ret in Hadd as [-> _].
    destruct (dfs_next init_task mem budget cur) as [[nxt|]| |];
      simpl in Hrun; try discriminate.
    - apply IH in Hrun as [-> Hlt]; [|lia]. split; [reflexivity|lia].
    - injection Hrun as <- <-. split; [reflexivity|lia]. }
  destruct (Hkeep _ _ _ _ _ _ _ (Z.le_refl 0) Hrun) as [-> Hlt].
  split; [reflexivity|].
  assert ((it' <? knr) = false) as -> by (apply Z.ltb_ge; lia).
  split; [reflexivity|lia].
Qed.

End Bookkeeping.

Lemma dfs_add_records_witness :
  exists b count total l,
    dfs_add [] (image scenario) 4 (replicate 2 None) 2 = Ret (b, count, total) /\
    visits [] (image scenario) 4 4 [] = Ret l /\
    total = Z.of_nat (length l) /\
    count = Z.min total 2 /\
    forall (j : nat) x,
      l !! j = Some x -> Z.of_nat j < count ->
      exists r, store_node (image scenario) x = Ret r /\ b !! j = Some (Some r).
Proof.
  eexists _, _, _.
  pose proof (dfs_add_records [] (image scenario) 4 (replicate 2 None) 2) as H.
  specialize (H _ _ _ ltac:(vm_compute; reflexivity)).
  destruct H as (l & Hl & Hrest). exists l.
  split; [vm_compute; reflexivity|]. split; [exact Hl|exact Hrest].
Defined.

Lemma dfs_add_no_capacity_witness :
  exists b count total,
    dfs_add [] (image scenario) 4 (replicate 2 None) 0 = Ret (b, count, total) /\
    b = replicate 2 None /\ count = 0 /\ 1 <= total.
Proof.
  eexists _, _, _. split; [vm_compute; reflexivity|].
  apply (dfs_add_no_capacity [] (image scenario) 4 (replicate 2 None) 0).
  - lia.
  - vm_compute. reflexivity.
Defined.

(** ** What a call returns, and why *)

Section ReturnValues.

Context `{target} {task_ptr : Type} `{EqDecision task_ptr}.

Variable init_task : task_ptr.

(** X13: a successful call stores through [nr] exactly the least of the
    number of tasks the walk counted, the number [n] of the probe plus 15,
    and the capacity: where the walk counts more than [n + 15] tasks the
    records are cut at [n + 15] however large the capacity is. *)
Theorem stored_count_exact fuel (sys : system task_ptr) buf nr res :
  sys_ptree init_task fuel sys buf nr = Ret res ->
  0 <= retval res ->
  exists n unr c,
    get_num_of_processes (at_probe sys) = Ret n /\
    nr = Some unr /\ get_user unr = Some c /\
    nr_stored res = Some (Z.min (retval res) (Z.min (n + 15) c)).
Proof.
  intros Hrun Hok.
  destruct (requested res) as [s|] eqn:Hreq.
  2:{ destruct (sys_ptree_early _ _ _ _ _ _ Hrun Hreq) as [-> | ->];
      simpl in Hok; unfold EINVAL, EFAULT in Hok; lia. }
  destruct (sys_ptree_requested _ _ _ _ _ _ _ Hrun Hreq)
    as (ubuf & unr & knr & n & _ & -> & Hget & _ & Hn & Hs & Hend).
  destruct Hend as [[-> _]|(kbuf1 & kslots1 & nproc1 & Hpos & Hwalk & _ & _ & _ & Hret)].
  { simpl in Hok. unfold ENOMEM in Hok. lia. }
  destruct Hret as [[Hret _]|(Hret & Hst & _)].
  { rewrite Hret in Hok. unfold EFAULT in Hok. lia. }
  apply dfs_add_ret in Hwalk as (_ & _ & Hcount & _).
  exists n, unr, knr.
  split; [exact Hn|]. split; [reflexivity|]. split; [exact Hget|].
  rewrite Hst, Hret, Hcount, Hs. reflexivity.
Qed.

(** X14: where [kmalloc_array] cannot serve the [min(n + 15, capacity)]
    slots, the call returns [-ENOMEM] whatever the task lists hold and
    whatever the budget of the walk: it has not walked, has freed
    nothing, and has stored nothing for the caller. *)
Theorem allocation_failure fuel (sys : system task_ptr) ubuf unr c n :
  get_user unr = Some c -> 1 <= c ->
  get_num_of_processes (at_probe sys) = Ret n ->
  n + 15 <= INT_MAX ->
  kmalloc_ok sys (Z.min (n + 15) c * sizeof_prinfo sys) = false ->
  exists res,
    sys_ptree init_task fuel sys (Some ubuf) (Some unr) = Ret res /\
    retval res = - ENOMEM /\
    requested res = Some (Z.min (n + 15) c) /\
    buffer res = None /\ walked res = false /\ freed res = false /\
    copied res = [] /\ nr_stored res = None.
Proof.
  intros Hget Hc Hn Hmax Hoom.
  exists (error (- ENOMEM) (Some (Z.min (n + 15) c))).
  split; [|repeat split].
  unfold sys_ptree. rewrite Hget.
  assert ((c <? 1) = false) as -> by (apply Z.ltb_ge; lia).
  rewrite Hn. cbn [bind].
  pose proof (count_processes_ret _ _ _ Hn) as Hlen.
  unfold int_add, EXTRA_SLOTS.
  rewrite bool_decide_eq_true_2 by (unfold INT_MIN, INT_MAX in *; lia).
  cbn [bind]. rewrite MIN_min. unfold kmalloc_array. rewrite Hoom.
  rewrite andb_false_r. reflexivity.
Qed.

(** X15: a call that returns hands back [-EINVAL], [-EFAULT], [-ENOMEM]
    or a count of at least 1, each error for its own cause: [-EINVAL] for
    a null pointer or a capacity below 1, before any allocation;
    [-EFAULT] for a count that cannot be read, before any allocation, or
    after the walk with nothing stored through [nr]; [-ENOMEM] for a
    refused allocation, before the walk; a count only after the walk and
    with a value stored through [nr]. *)
Theorem return_values fuel (sys : system task_ptr) buf nr res :
  sys_ptree init_task fuel sys buf nr = Ret res ->
  (retval res = - EINVAL /\ requested res = None /\
   (buf = None \/ nr = None \/
    exists unr c, nr = Some unr /\ get_user unr = Some c /\ c < 1)) \/
  (retval res = - EFAULT /\ requested res = None /\
   exists unr, nr = Some unr /\ get_user unr = None) \/
  (retval res = - ENOMEM /\ walked res = false /\
   exists s, requested res = Some s /\
             kmalloc_array sys s (sizeof_prinfo sys) = None) \/
  (retval res = - EFAULT /\ walked res = true /\ nr_stored res = None) \/
  (1 <= retval res <= INT_MAX /\ walked res = true /\
   is_Some (nr_stored res)).
Proof.
  unfold sys_ptree. intros Hrun.
  destruct buf as [ubuf|]; [|injection Hrun as <-; left; auto].
  destruct nr as [unr|]; [|injection Hrun as <-; left; auto].
  destruct (get_user unr) as [knr|] eqn:Hget.
  2:{ injection Hrun as <-. right. left. eauto. }
  destruct (knr <? 1) eqn:Hknr.
  { apply Z.ltb_lt in Hknr. injection Hrun as <-. left. eauto 10. }
  destruct (get_num_of_processes (at_probe sys)) as [n| |];
    simpl in Hrun; try discriminate.
  destruct (int_add n EXTRA_SLOTS) as [slots| |]; simpl in Hrun; try discriminate.
  destruct (kmalloc_array sys (MIN slots knr) (sizeof_prinfo sys))
    as [kbuf0|] eqn:Hk.
  2:{ injection Hrun as <-. right. right. left. simpl. eauto. }
  destruct (dfs_add _ _ _ _ _) as [[[kbuf1 kslots1] nproc1]| |] eqn:Hwalk;
    simpl in Hrun; try discriminate.
  unfold kmalloc_array in Hk.
  destruct ((0 <=? MIN slots knr) && _); [|discriminate].
  injection Hk as <-.
  apply dfs_add_ret in Hwalk as (_ & Htot & _).
  do 3 right.
  destruct (to_int _ <? 0); [injection Hrun as <-; left; auto|].
  destruct (put_user unr <? 0); injection Hrun as <-; simpl; [left; auto|].
  right. eauto.
Qed.

End ReturnValues.

Lemma stored_count_exact_witness :
  exists res n unr c,
    sys_ptree [] 4 (machine scenario) (Some (room_for 1000)) (Some (count_of 3))
    = Ret res /\
    get_num_of_processes (at_probe (machine scenario)) = Ret n /\
    Some (count_of 3) = Some unr /\ get_user unr = Some c /\
    nr_stored res = Some (Z.min (retval res) (Z.min (n + 15) c)).
Proof.
  pose proof (stored_count_exact [] 4 (machine scenario) (Some (room_for 1000))
                (Some (count_of 3))) as H.
  specialize (H _ ltac:(vm_compute; reflexivity) ltac:(simpl; lia)).
  destruct H as (n & unr & c & H). eexists _, n, unr, c.
  split; [vm_compute; reflexivity|exact H].
Defined.

Lemma allocation_failure_witness :
  exists res,
    sys_ptree [] 0 (static_system session 88 (fun _ => false))
      (Some (room_for 1000)) (Some (count_of 10)) = Ret res /\
    retval res = - ENOMEM /\
    requested res = Some (Z.min (5 + 15) 10) /\
    buffer res = None /\ walked res = false /\ freed res = false /\
    copied res = [] /\ nr_stored res = None.
Proof.
  apply (allocation_failure [] 0 (static_system session 88 (fun _ => false))
           (room_for 1000) (count_of 10) 10 5).
  - reflexivity.
  - lia.
  - reflexivity.
  - unfold INT_MAX. lia.
  - reflexivity.
Defined.

Lemma return_values_witness :
  exists res,
    sys_ptree [] 4 (machine scenario) (Some (room_for 1000))
      (Some {| ui_value := Some 2; ui_writable := false |}) = Ret res /\
    ((retval res = - EINVAL /\ requested res = None /\
      (Some (room_for 1000) = None \/
       Some {| ui_value := Some 2; ui_writable := false |} = None \/
       exists unr c,
         Some {| ui_value := Some 2; ui_writable := false |} = Some unr /\
         get_user unr = Some c /\ c < 1)) \/
     (retval res = - EFAULT /\ requested res = None /\
      exists unr,
        Some {| ui_value := Some 2; ui_writable := false |} = Some unr /\
        get_user unr = None) \/
     (retval res = - ENOMEM /\ walked res = false /\
      exists s, requested res = Some s /\
                kmalloc_array (machine scenario) s
                  (sizeof_prinfo (machine scenario)) = None) \/
     (retval res = - EFAULT /\ walked res = true /\ nr_stored res = None) \/
     (1 <= retval res <= INT_MAX /\ walked res = true /\
      is_Some (nr_stored res))).
Proof.
  eexists. split; [vm_compute; reflexivity|].
  eapply (return_values [] 4 (machine scenario) (Some (room_for 1000))
            (Some {| ui_value := Some 2; ui_writable := false |})).
  vm_compute. reflexivity.
Defined.

(** ** A task whose parent is not its real parent *)

Section Traced.

Context `{target} {task_ptr : Type} `{EqDecision task_ptr}.

Variable init_task : task_ptr.
Variable mem : memory task_ptr.

(** X16: [get_first_list_head] takes the [children] head of [parent], the
    lists are those of [real_parent]. At a childless task that is the
    last child of its real parent and whose [parent] is another task, the
    walk finds no end of the list, takes the entry after the task, which
    is the [children] head of the real parent, and leaves the tasks. *)
Theorem dfs_next_parent_mismatch budget cur tk :
  mem cur = Some tk ->
  next (children tk) = ListPtr cur children_of ->
  next (sibling tk) = ListPtr (real_parent tk) children_of ->
  parent tk <> real_parent tk ->
  dfs_next init_task mem budget cur = Fault.
Proof.
  intros Hcur Hleaf Hlast Hne.
  unfold dfs_next, list_empty, get_first_list_head, list_is_last,
    list_first_entry, load_list, load.
  cbn [lp_task lp_member]. rewrite Hcur. cbn [bind].
  rewrite Hleaf, bool_decide_eq_true_2 by reflexivity. cbn [negb].
  rewrite Hlast, bool_decide_eq_false_2 by congruence. reflexivity.
Qed.

End Traced.

Lemma dfs_next_parent_mismatch_witness :
  dfs_next [] traced 2 [1%nat] = Fault.
Proof.
  eapply (dfs_next_parent_mismatch [] traced 2 [1%nat]).
  - reflexivity.
  - reflexivity.
  - reflexivity.
  - simpl. discriminate.
Defined.

(** ** Every task once *)

Lemma preorder_suffix :
  forall s p x, x ∈ preorder s p -> exists l, x = l ++ p.
Proof.
  induction s as [info ks IHks] using tree_ind. intros p x.
  rewrite preorder_unfold. intros Hx. apply elem_of_cons in Hx as [->|Hx].
  { exists []. reflexivity. }
  revert Hx. generalize O. induction ks as [|k ks IH]; intros i Hx; simpl in Hx.
  { inversion Hx. }
  apply Forall_cons in IHks as [Hk Hks].
  apply elem_of_app in Hx as [Hx|Hx].
  - destruct (Hk _ _ Hx) as [l ->]. exists (l ++ [i]).
    rewrite <- app_assoc. reflexivity.
  - apply (IH Hks (S i) Hx).
Qed.

Lemma preorder_kids_suffix ks p :
  forall i x,
    x ∈ preorder_kids ks p i ->
    exists l j, x = l ++ j :: p /\ (i <= j)%nat.
Proof.
  induction ks as [|k ks IH]; intros i x Hx; simpl in Hx; [inversion Hx|].
  apply elem_of_app in Hx as [Hx|Hx].
  - destruct (preorder_suffix _ _ _ Hx) as [l ->]. exists l, i. auto.
  - destruct (IH (S i) x Hx) as (l & j & -> & Hj). exists l, j.
    split; [reflexivity|lia].
Qed.

Lemma suffix_index {A} (l l' : list A) a b p :
  l ++ a :: p = l' ++ b :: p -> a = b.
Proof.
  intros Heq. apply app_inj_2 in Heq as [_ Heq]; [|reflexivity].
  congruence.
Qed.

Lemma NoDup_preorder :
  forall s p, NoDup (preorder s p).
Proof.
  induction s as [info ks IHks] using tree_ind. intros p.
  rewrite preorder_unfold. apply NoDup_cons. split.
  - intros Hp. apply preorder_kids_suffix in Hp as (l & j & Hp & _).
    apply (f_equal length) in Hp. rewrite length_app in Hp. simpl in Hp. lia.
  - generalize O. induction ks as [|k ks IH]; intros i; simpl.
    { apply NoDup_nil_2. }
    apply Forall_cons in IHks as [Hk Hks].
    apply NoDup_app. split; [apply Hk|]. split; [|apply (IH Hks)].
    intros x Hx Hx'.
    apply preorder_suffix in Hx as [l Hl].
    apply preorder_kids_suffix in Hx' as (l' & j & Hl' & Hj).
    rewrite Hl in Hl'. apply suffix_index in Hl'. lia.
Qed.

(** X17: over a tree with shallow tails whose root has children the walk
    passes every task of the tree, and each of them once. *)
Theorem visits_each_task_once t fuel :
  kids_of t <> [] -> shallow_tails t = true ->
  (node_count t <= fuel)%nat ->
  exists l,
    visits [] (image t) fuel fuel [] = Ret l /\
    NoDup l /\
    forall p, p ∈ l <-> is_Some (subtree t p).
Proof.
  intros Hroot Ht Hfuel.
  pose proof (node_count_root_with_kids t Hroot) as H2.
  destruct fuel as [|[|budget]]; try lia.
  exists (preorder t []).
  split; [apply (visits_preorder t budget _ Hroot Ht Hfuel)|].
  split; [apply NoDup_preorder|].
  intros p. split.
  - destruct (preorder_follows t t [] eq_refl) as [Hvalid _].
    rewrite Forall_forall in Hvalid. apply Hvalid.
  - intros [s Hs]. apply (subtree_in_preorder _ _ _ Hs).
Qed.

Lemma visits_each_task_once_witness :
  exists l,
    visits [] (image scenario) 4 4 [] = Ret l /\
    NoDup l /\
    forall p, p ∈ l <-> is_Some (subtree scenario p).
Proof.
  apply (visits_each_task_once scenario 4).
  - discriminate.
  - reflexivity.
  - vm_compute. lia.
Defined.

(** ** Parents before children *)

Lemma parents_first_mono seen seen' l :
  (forall y, y ∈ seen -> y ∈ seen') ->
  parents_first seen l -> parents_first seen' l.
Proof.
  revert seen seen'. induction l as [|x l IH]; intros seen seen' Hsub; simpl;
    [auto|].
  intros [Hx Hl]. split; [apply Hsub; exact Hx|].
  apply (IH (x :: seen)); [|exact Hl].
  intros y Hy. apply elem_of_cons in Hy as [->|Hy]; apply elem_of_cons; auto.
Qed.

Lemma parents_first_app seen l1 l2 :
  parents_first seen l1 -> parents_first seen l2 ->
  parents_first seen (l1 ++ l2).
Proof.
  revert seen. induction l1 as [|x l1 IH]; intros seen; simpl; [auto|].
  intros [Hx Hl1] Hl2. split; [exact Hx|].
  apply IH; [exact Hl1|].
  apply (parents_first_mono seen); [|exact Hl2].
  intros y Hy. apply elem_of_cons. auto.
Qed.

Lemma parents_first_preorder :
  forall s p seen, tail p ∈ seen -> parents_first seen (preorder s p).
Proof.
  induction s as [info ks IHks] using tree_ind. intros p seen Hp.
  rewrite preorder_unfold. split; [exact Hp|].
  generalize O. induction ks as [|k ks IH]; intros i; simpl; [exact I|].
  apply Forall_cons in IHks as [Hk Hks].
  apply parents_first_app; [|apply (IH Hks)].
  apply Hk. simpl. apply elem_of_cons. auto.
Qed.

Lemma parents_first_lookup l :
  forall seen (j : nat) x,
    parents_first seen l -> l !! j = Some x ->
    tail x ∈ seen \/ exists m : nat, (m < j)%nat /\ l !! m = Some (tail x).
Proof.
  induction l as [|y l IH]; intros seen j x Hl Hj; [discriminate|].
  destruct Hl as [Hy Hl]. destruct j as [|j]; simpl in Hj.
  - injection Hj as <-. left. exact Hy.
  - destruct (IH _ _ _ Hl Hj) as [Hin|(m & Hm & Hlook)].
    + apply elem_of_cons in Hin as [->|Hin]; [|left; exact Hin].
      right. exists O. split; [lia|reflexivity].
    + right. exists (S m). split; [lia|exact Hlook].
Qed.

Lemma preorder_parent_earlier t (j : nat) x :
  preorder t [] !! S j = Some x ->
  exists m : nat, (m <= j)%nat /\ preorder t [] !! m = Some (tail x).
Proof.
  intros Hx.
  assert (parents_first [[]] (preorder t [])) as Hpf.
  { apply parents_first_preorder. simpl. apply elem_of_cons. auto. }
  destruct (parents_first_lookup _ _ _ _ Hpf Hx) as [Hin|(m & Hm & Hlook)].
  - apply list_elem_of_singleton in Hin. exists O. split; [lia|].
    rewrite Hin. destruct t as [info ks]. rewrite preorder_unfold. reflexivity.
  - exists m. split; [lia|exact Hlook].
Qed.

Lemma lookup_map {A B} (f : A -> B) (l : list A) (i : nat) :
  map f l !! i = option_map f (l !! i).
Proof.
  revert i. induction l as [|a l IH]; intros [|i]; simpl; auto.
Qed.

Lemma buffer_with_lookup n k recs (j : nat) r :
  buffer_with n k recs !! j = Some (Some r) <->
  (j < k)%nat /\ recs !! j = Some r.
Proof.
  unfold buffer_with. split.
  - intros Hj.
    destruct (decide (j < length (map Some (take k recs)))%nat) as [Hlt|Hge].
    + rewrite lookup_app_l in Hj by exact Hlt.
      rewrite lookup_map in Hj.
      destruct (take k recs !! j) as [r'|] eqn:Hr; [|discriminate].
      injection Hj as <-. apply lookup_take_Some in Hr as [Hr Hk]. auto.
    + rewrite lookup_app_r in Hj by lia.
      apply lookup_replicate in Hj as [Hj _]. discriminate.
  - intros [Hk Hr].
    assert (take k recs !! j = Some r) as Ht
      by (apply lookup_take_Some; auto).
    rewrite lookup_app_l
      by (rewrite length_map; eapply lookup_lt_Some; exact Ht).
    rewrite lookup_map, Ht. reflexivity.
Qed.

(** X18: in the buffer [dfs_add] fills over a tree with shallow tails
    whose root has children, the first record is that of the root, which
    names itself as its parent, and every later record names as its
    parent the pid of a record in an earlier slot. *)
Theorem parent_record_first `{target} t fuel n k :
  kids_of t <> [] -> shallow_tails t = true ->
  Z.of_nat (node_count t) <= INT_MAX ->
  (node_count t <= fuel)%nat -> (k <= n)%nat ->
  exists b count total,
    dfs_add [] (image t) fuel (replicate n None) (Z.of_nat k)
    = Ret (b, count, total) /\
    (forall r, b !! O = Some (Some r) -> parent_pid r = pid r) /\
    (forall (j : nat) r,
        b !! S j = Some (Some r) ->
        exists (m : nat) rp,
          (m <= j)%nat /\ b !! m = Some (Some rp) /\ parent_pid r = pid rp).
Proof.
  intros Hroot Ht Hmax Hfuel Hk.
  eexists _, _, _.
  split; [apply (dfs_add_preorder t fuel n k Hroot Ht Hmax Hfuel Hk)|].
  split.
  - intros r Hr. apply buffer_with_lookup in Hr as [_ Hr].
    rewrite lookup_map in Hr.
    destruct t as [info ks]. rewrite preorder_unfold in Hr. simpl in Hr.
    injection Hr as <-. reflexivity.
  - intros j r Hr. apply buffer_with_lookup in Hr as [Hj Hr].
    rewrite lookup_map in Hr.
    destruct (preorder t [] !! S j) as [x|] eqn:Hx; [|discriminate].
    injection Hr as <-.
    destruct (preorder_parent_earlier _ _ _ Hx) as (m & Hm & Hlook).
    exists m, (record_of t (tail x)).
    split; [exact Hm|]. split; [|reflexivity].
    apply buffer_with_lookup. split; [lia|].
    rewrite lookup_map, Hlook. reflexivity.
Qed.

Lemma parent_record_first_witness :
  exists b count total,
    dfs_add [] (image scenario) 4 (replicate 4 None) (Z.of_nat 4)
    = Ret (b, count, total) /\
    (forall r, b !! O = Some (Some r) -> parent_pid r = pid r) /\
    (forall (j : nat) r,
        b !! S j = Some (Some r) ->
        exists (m : nat) rp,
          (m <= j)%nat /\ b !! m = Some (Some rp) /\ parent_pid r = pid rp).
Proof.
  apply (parent_record_first scenario 4 4 4).
  - discriminate.
  - reflexivity.
  - vm_compute. discriminate.
  - vm_compute. lia.
  - lia.
Defined.

(** ** A count that cannot be written back *)

(** The call over a static tree with shallow tails whose root has
    children, whatever the caller's count allows. *)
Lemma sys_ptree_static `{target} t size ok ubuf unr c fuel :
  kids_of t <> [] -> shallow_tails t = true ->
  Z.of_nat (node_count t) + 14 <= INT_MAX ->
  (node_count t <= fuel)%nat ->
  get_user unr = Some c -> 1 <= c ->
  0 < size ->
  ok (Z.min (Z.of_nat (node_count t) + 14) c * size) = true ->
  Z.min c (Z.of_nat (node_count t)) * size <= ub_writable ubuf ->
  exists res,
    sys_ptree [] fuel (static_system t size ok) (Some ubuf) (Some unr) = Ret res /\
    retval res
    = (if ui_writable unr then Z.of_nat (node_count t) else - EFAULT) /\
    nr_stored res
    = (if ui_writable unr then Some (Z.min c (Z.of_nat (node_count t)))
       else None) /\
    walked res = true /\ freed res = true /\
    copied res
    = map Some (take (Z.to_nat c) (map (record_of t) (preorder t []))).
Proof.
  intros Hroot Ht Hmax Hfuel Hget Hc Hsize Hok Hroom.
  pose proof (node_count_root_with_kids t Hroot) as H2.
  set (nc := Z.of_nat (node_count t)) in *.
  set (recs := map (record_of t) (preorder t [])).
  assert (length recs = node_count t) as Hrecs
    by (unfold recs; rewrite length_map; reflexivity).
  unfold sys_ptree. rewrite Hget.
  assert ((c <? 1) = false) as -> by (apply Z.ltb_ge; lia).
  assert (get_num_of_processes (at_probe (static_system t size ok))
          = Ret (nc - 1)) as ->.
  { unfold get_num_of_processes.
    cbn [static_system at_probe static_kernel for_each_process].
    assert (Z.of_nat (length (tail (preorder t []))) = nc - 1) as Hlen.
    { destruct (preorder t []) as [|x l] eqn:Hl; unfold nc, node_count in *;
        rewrite Hl in *; simpl in *; lia. }
    rewrite count_processes_eval; [f_equal; lia|lia|lia]. }
  cbn [bind]. unfold int_add, EXTRA_SLOTS.
  rewrite bool_decide_eq_true_2 by (unfold INT_MIN, INT_MAX in *; lia).
  cbn [bind]. rewrite MIN_min.
  replace (nc - 1 + 15) with (nc + 14) by lia.
  set (kslots := Z.min (nc + 14) c).
  unfold kmalloc_array. cbn [static_system kmalloc_ok sizeof_prinfo at_walk
                               static_kernel tasks].
  assert ((0 <=? kslots) = true) as -> by (apply Z.leb_le; lia).
  fold kslots in Hok. rewrite Hok. cbn [andb].
  assert (dfs_add [] (image t) fuel (replicate (Z.to_nat kslots) None) kslots
          = Ret (buffer_with (Z.to_nat kslots) (Z.to_nat kslots) recs,
                 Z.min nc kslots, nc)) as ->.
  { pose proof (dfs_add_preorder t fuel (Z.to_nat kslots) (Z.to_nat kslots)
                  Hroot Ht) as Hwalk.
    rewrite Z2Nat.id in Hwalk by lia. apply Hwalk; [lia|exact Hfuel|lia]. }
  cbn [bind].
  assert (Z.min nc kslots = Z.min c nc) as -> by lia.
  set (k := Z.min c nc) in *.
  assert (copy_to_user ubuf (k * size) = 0) as Hleft
    by (unfold copy_to_user; lia).
  rewrite Hleft. change (to_int 0 <? 0) with false. cbv iota.
  assert (take (Z.to_nat ((k * size - 0) / size))
               (buffer_with (Z.to_nat kslots) (Z.to_nat kslots) recs)
          = map Some (take (Z.to_nat c) recs)) as Hout.
  { rewrite Z.sub_0_r, Z.div_mul by lia.
    rewrite take_buffer_with by lia.
    f_equal. apply list_eq. intros i.
    rewrite !lookup_take. repeat case_decide; try reflexivity; try lia.
    symmetry. apply lookup_ge_None. lia. }
  rewrite Hout. unfold put_user.
  destruct (ui_writable unr).
  - change (0 <? 0) with false. cbv iota.
    eexists. split; [reflexivity|]. simpl. auto 10.
  - change (- EFAULT <? 0) with true. cbv iota.
    eexists. split; [reflexivity|]. simpl. auto 10.
Qed.

(** X19: where the walk has gone well and the records have been copied
    out but the count cannot be stored through [nr], the call returns
    [-EFAULT] and stores no count, with the records of the first [c] tasks
    already in the caller's buffer and the kernel buffer freed. *)
Theorem count_not_writable `{target} t size ok ubuf unr c fuel :
  kids_of t <> [] -> shallow_tails t = true ->
  Z.of_nat (node_count t) + 14 <= INT_MAX ->
  (node_count t <= fuel)%nat ->
  get_user unr = Some c -> ui_writable unr = false -> 1 <= c ->
  0 < size ->
  ok (Z.min (Z.of_nat (node_count t) + 14) c * size) = true ->
  Z.min c (Z.of_nat (node_count t)) * size <= ub_writable ubuf ->
  exists res,
    sys_ptree [] fuel (static_system t size ok) (Some ubuf) (Some unr) = Ret res /\
    retval res = - EFAULT /\
    nr_stored res = None /\
    freed res = true /\
    copied res
    = map Some (take (Z.to_nat c) (map (record_of t) (preorder t []))).
Proof.
  intros Hroot Ht Hmax Hfuel Hget Hw Hc Hsize Hok Hroom.
  destruct (sys_ptree_static t size ok ubuf unr c fuel Hroot Ht Hmax Hfuel
              Hget Hc Hsize Hok Hroom)
    as (res & Hrun & Hret & Hst & _ & Hfreed & Hout).
  rewrite Hw in Hret, Hst. exists res. auto 10.
Qed.

Lemma count_not_writable_witness :
  exists res,
    sys_ptree [] 4 (machine scenario) (Some (room_for 1000))
      (Some {| ui_value := Some 2; ui_writable := false |}) = Ret res /\
    retval res = - EFAULT /\
    nr_stored res = None /\
    freed res = true /\
    copied res = [Some (record_of scenario []); Some (record_of scenario [O])].
Proof.
  apply (count_not_writable scenario 88 (fun _ => true) (room_for 1000)
           {| ui_value := Some 2; ui_writable := false |} 2 4);
    try reflexivity; try discriminate; vm_compute; congruence.
Defined.

(** ** When the loop returns *)

Section Returns.

Context `{target} {task_ptr : Type} `{EqDecision task_ptr}.

Variable init_task : task_ptr.
Variable mem : memory task_ptr.

(** X20: whatever the memory holds, where the cursor reaches the end of
    the walk, every task it passes can be read, their number fits an
    [int] and the capacity is no more than the slots of the buffer,
    [dfs_add] returns: no store falls outside the buffer. *)
Theorem dfs_add_returns fuel n k l :
  (k <= n)%nat ->
  visits init_task mem fuel fuel init_task = Ret l ->
  Forall (fun x => exists r, store_node mem x = Ret r) l ->
  Z.of_nat (length l) <= INT_MAX ->
  exists b,
    dfs_add init_task mem fuel (replicate n None) (Z.of_nat k)
    = Ret (b, Z.min (Z.of_nat (length l)) (Z.of_nat k), Z.of_nat (length l)) /\
    length b = n.
Proof.
  intros Hk Hv Hall Hmax.
  set (rec := fun x =>
                match store_node mem x with
                | Ret r => r
                | _ => {| parent_pid := 0; pid := 0; first_child_pid := 0;
                          next_sibling_pid := 0; state := 0; uid := 0;
                          comm := EmptyString |}
                end).
  assert (Forall (fun x => store_node mem x = Ret (rec x)) l) as Hrec.
  { eapply Forall_impl; [exact Hall|]. intros x [r Hr]. unfold rec.
    rewrite Hr. reflexivity. }
  eexists. split.
  - apply (dfs_add_visits init_task mem rec fuel n k l Hk Hv Hrec Hmax).
  - apply buffer_with_length. exact Hk.
Qed.

End Returns.

Lemma dfs_add_returns_witness :
  exists b,
    dfs_add [] (image scenario) 4 (replicate 3 None) (Z.of_nat 2)
    = Ret (b, Z.min (Z.of_nat (length [[]; [O]; [O; O]; [1%nat]])) (Z.of_nat 2),
           Z.of_nat (length [[]; [O]; [O; O]; [1%nat]])) /\
    length b = 3%nat.
Proof.
  apply (dfs_add_returns [] (image scenario) 4 3 2 [[]; [O]; [O; O]; [1%nat]]).
  - lia.
  - vm_compute. reflexivity.
  - repeat constructor; eexists; vm_compute; reflexivity.
  - vm_compute. discriminate.
Defined.

(** ** The recorded next sibling *)

(** X21: for a childless task that has a younger sibling, the record
    stored holds in [next_sibling_pid] the pid of that sibling, and that
    sibling is the task the walk goes on to; for a youngest child it
    holds 0. *)
Theorem next_sibling_pid_is_next `{target} t i q s budget :
  subtree t (i :: q) = Some s -> kids_of s = [] ->
  exists r,
    store_node (image t) (i :: q) = Ret r /\
    if youngest t (i :: q)
    then next_sibling_pid r = 0
    else dfs_next [] (image t) budget (i :: q) = Ret (Some (S i :: q)) /\
         task_pid_nr (image t) (S i :: q) = Ret (next_sibling_pid r).
Proof.
  intros Hs Hk. exists (record_of t (i :: q)).
  split; [apply (store_node_image _ _ _ Hs)|].
  destruct (youngest t (i :: q)) eqn:Hy.
  - simpl in *. apply negb_true_iff in Hy. rewrite Hy. reflexivity.
  - split.
    + unfold dfs_next.
      rewrite (list_empty_leaf _ _ _ Hs Hk). cbn [bind negb].
      rewrite (get_first_list_head_image _ _ _ Hs). cbn [bind tail].
      rewrite (list_is_last_sibling _ _ _ _ Hs).
      rewrite (next_sibling_link_elder _ _ _ Hy). cbn [bind].
      rewrite bool_decide_eq_false_2 by discriminate. cbn [negb].
      rewrite (list_first_entry_sibling _ _ _ Hs).
      rewrite (next_sibling_link_elder _ _ _ Hy). reflexivity.
    + simpl in Hy. apply negb_false_iff in Hy.
      pose proof Hy as Hlt. apply bool_decide_eq_true_1 in Hlt.
      simpl. rewrite Hy.
      apply task_pid_nr_pid_at. apply nkids_lookup. exact Hlt.
Qed.

Lemma next_sibling_pid_is_next_witness :
  exists r,
    store_node (image two_children) [O] = Ret r /\
    if youngest two_children [O]
    then next_sibling_pid r = 0
    else dfs_next [] (image two_children) 1%nat [O] = Ret (Some [1%nat]) /\
         task_pid_nr (image two_children) [1%nat] = Ret (next_sibling_pid r).
Proof.
  apply (next_sibling_pid_is_next two_children O [] (Node (task 1) []) 1%nat);
    reflexivity.
Defined.
